(** * interview-everything: realtime transcription services

    A shallow embedding of the TypeScript services under
    [electron/services]:

    - [QuestionClassifier]   (QuestionClassifier.ts, lines 1-114)
    - [RealtimeTranscriptionManager] (QuestionClassifier.ts, lines 114-444)
    - [SystemAudioCapture]   (SystemAudioCapture.ts)

    and the properties the specification states about them.

    Conventions.  A JavaScript string is its sequence of UTF-16 code
    units; a JavaScript number is an IEEE-754 binary64, that is Rocq's
    primitive [float]; a [Uint8Array] is a list of integers in [0,256).
    Methods that read or write [this] are functions in a state monad with
    exceptions: what a call leaves in the object when it throws is part of
    the model, because [try]/[catch] blocks resume from it. *)

From Stdlib Require Import ZArith NArith Floats Ascii String Lia.
From stdpp Require Import base option list.

(* ================================================================== *)
(** * Part I.  The model                                               *)
(* ================================================================== *)

(** ** JavaScript strings *)

Module JS.

(** A string is a list of UTF-16 code units. *)
Definition JSString := list N.

(** The string a source literal denotes (all literals of the sources are
    ASCII). *)
Definition lit (s : string) : JSString :=
  map N_of_ascii (list_ascii_of_string s).

(** [k] is a prefix of [s]. *)
Fixpoint startsWith (k s : JSString) : bool :=
  match k, s with
  | [], _ => true
  | _ :: _, [] => false
  | c :: k', d :: s' => (c =? d)%N && startsWith k' s'
  end.

(** [String.prototype.includes]: [k] occurs in [s] at some position. *)
Fixpoint includes (s k : JSString) : bool :=
  startsWith k s ||
  match s with
  | [] => false
  | _ :: s' => includes s' k
  end.

(** Strict equality of two strings. *)
Definition str_eqb (a b : JSString) : bool := bool_decide (a = b).

(** Lower-casing of the code units below 128, the only ones on which
    [String.prototype.toLowerCase] is the same in every locale-free
    implementation: A-Z move to a-z, the rest is kept. *)
Definition ascii_lower_unit (c : N) : N :=
  if ((65 <=? c) && (c <=? 90))%N then (c + 32)%N else c.

Definition ascii_toLowerCase (s : JSString) : JSString :=
  map ascii_lower_unit s.

(** Base64 with padding, as [Buffer.prototype.toString('base64')] writes
    it. *)
Definition base64_digit (n : Z) : N :=
  Z.to_N (if (n <? 26)%Z then 65 + n
          else if (n <? 52)%Z then 97 + (n - 26)
          else if (n <? 62)%Z then 48 + (n - 52)
          else if (n =? 62)%Z then 43 else 47)%Z.

Fixpoint base64 (bytes : list Z) : JSString :=
  match bytes with
  | [] => []
  | [a] =>
      [ base64_digit (a / 4); base64_digit (a mod 4 * 16); 61%N; 61%N ]
  | [a; b] =>
      [ base64_digit (a / 4); base64_digit (a mod 4 * 16 + b / 16);
        base64_digit (b mod 16 * 4); 61%N ]
  | a :: b :: c :: rest =>
      base64_digit (a / 4) :: base64_digit (a mod 4 * 16 + b / 16)
      :: base64_digit (b mod 16 * 4 + c / 64) :: base64_digit (c mod 64)
      :: base64 rest
  end%Z.

#[local] Set Warnings "-register-all".

(** Values, as [JSON.parse] builds them and property reads return them. *)
Inductive JsValue :=
  | JUndefined
  | JNull
  | JBool (b : bool)
  | JNumber (n : float)
  | JString (s : JSString)
  | JArray (items : list JsValue)
  | JObject (fields : list (JSString * JsValue)).

(** [ToBoolean]. *)
Definition truthy (v : JsValue) : bool :=
  match v with
  | JUndefined | JNull => false
  | JBool b => b
  | JNumber n => negb (is_nan n || (n =? 0)%float)
  | JString s => negb (bool_decide (s = []))
  | JArray _ | JObject _ => true
  end.

(** [a || b]. *)
Definition or_else (a b : JsValue) : JsValue := if truthy a then a else b.

(** The own property [k] of an object literal. *)
Fixpoint own_property (fields : list (JSString * JsValue)) (k : JSString) : JsValue :=
  match fields with
  | [] => JUndefined
  | (k', v) :: rest => if str_eqb k' k then v else own_property rest k
  end.

(** The states of a socket ([WebSocket.readyState]). *)
Inductive ReadyState := CONNECTING | OPEN | CLOSING | CLOSED.

#[global] Instance ReadyState_eq_dec : EqDecision ReadyState.
Proof. solve_decision. Defined.

End JS.
Import JS.

(** The built-ins and the [ws] library, where the services only pass
    their results on.  Nothing below depends on which functions they are:
    - [toLowerCase] is [String.prototype.toLowerCase];
    - [JSON_parse] is [JSON.parse], [None] where it throws a SyntaxError;
    - [ws_rejects_url] tells whether [new WebSocket(url)] throws;
    - [ws_send_throws] tells in which states of a socket [send] throws
      (releases of [ws] differ on the closing and closed states: the
      older ones throw there, the newer ones drop the frame). *)
Class Host := {
  toLowerCase : JSString -> JSString;
  JSON_parse : JSString -> option JsValue;
  ws_rejects_url : JSString -> bool;
  ws_send_throws : ReadyState -> bool;
}.

(** ** A reader of JSON texts

    The grammar of RFC 8259, for running the model on the frames of the
    providers.  What it accepts is what [JSON.parse] accepts; a number is
    read to the nearest double. *)

Module Json.

Definition is_ws (c : N) : bool :=
  ((c =? 32) || (c =? 9) || (c =? 10) || (c =? 13))%N.

Fixpoint skip_ws (s : JSString) : JSString :=
  match s with
  | c :: s' => if is_ws c then skip_ws s' else s
  | [] => []
  end.

Definition digit (c : N) : option Z :=
  if ((48 <=? c) && (c <=? 57))%N then Some (Z.of_N c - 48)%Z else None.

Definition hex_digit (c : N) : option N :=
  if ((48 <=? c) && (c <=? 57))%N then Some (c - 48)%N
  else if ((97 <=? c) && (c <=? 102))%N then Some (c - 87)%N
  else if ((65 <=? c) && (c <=? 70))%N then Some (c - 55)%N
  else None.

(** The characters of a string after its opening quote, and the rest of
    the text after its closing quote. *)
Fixpoint read_chars (s acc : JSString) : option (JSString * JSString) :=
  match s with
  | [] => None
  | c :: s' =>
      if (c =? 34)%N then Some (acc, s')
      else if (c <? 32)%N then None
      else if (c =? 92)%N then
        match s' with
        | e :: s'' =>
            if (e =? 34)%N || (e =? 92)%N || (e =? 47)%N
            then read_chars s'' (acc ++ [e])
            else if (e =? 98)%N then read_chars s'' (acc ++ [8%N])
            else if (e =? 102)%N then read_chars s'' (acc ++ [12%N])
            else if (e =? 110)%N then read_chars s'' (acc ++ [10%N])
            else if (e =? 114)%N then read_chars s'' (acc ++ [13%N])
            else if (e =? 116)%N then read_chars s'' (acc ++ [9%N])
            else if (e =? 117)%N then
              match s'' with
              | a :: b :: c :: d :: s3 =>
                  match hex_digit a, hex_digit b, hex_digit c, hex_digit d with
                  | Some a, Some b, Some c, Some d =>
                      read_chars s3 (acc ++ [((a * 16 + b) * 16 + c) * 16 + d]%N)
                  | _, _, _, _ => None
                  end
              | _ => None
              end
            else None
        | [] => None
        end
      else read_chars s' (acc ++ [c])
  end.

(** A run of digits: how many, their value after [acc], the rest. *)
Fixpoint read_digits (s : JSString) (acc : Z) : nat * Z * JSString :=
  match s with
  | c :: s' =>
      match digit c with
      | Some d =>
          let '(n, v, rest) := read_digits s' (acc * 10 + d) in (S n, v, rest)
      | None => (0, acc, s)
      end
  | [] => (0, acc, [])
  end.

(** The double nearest to [m * 10 ^ e], ties to even, for [0 <= m].
    With a negative exponent the quotient by the power of ten is taken
    to more than 64 binary digits, and one more digit tells whether
    anything was cut off, so that it is rounded once. *)
Definition decimal (m e : Z) : float :=
  if (0 <=? e)%Z then SF2Prim (binary_normalize prec emax (m * 10 ^ e) 0 false)
  else
    let d := (10 ^ (- e))%Z in
    let s := (Z.log2 d + 64)%Z in
    let n := (m * 2 ^ s)%Z in
    let sticky := if (n mod d =? 0)%Z then 0%Z else 1%Z in
    SF2Prim (binary_normalize prec emax (2 * (n / d) + sticky) (- s - 1) false).

Definition read_number (s : JSString) : option (float * JSString) :=
  let '(negative, s) :=
    match s with
    | c :: s' => if (c =? 45)%N then (true, s') else (false, s)
    | [] => (false, s)
    end in
  let '(n, int, rest) := read_digits s 0 in
  let leading_zero := match s with c :: _ => (c =? 48)%N | [] => false end in
  if (n =? 0) || (leading_zero && negb (n =? 1)) then None
  else
    let frac :=
      match rest with
      | c :: rest' =>
          if (c =? 46)%N then
            let '(k, v, rest'') := read_digits rest' int in
            if k =? 0 then None else Some (k, v, rest'')
          else Some (0, int, rest)
      | [] => Some (0, int, rest)
      end in
    match frac with
    | None => None
    | Some (k, m, rest) =>
        let exponent :=
          match rest with
          | c :: rest' =>
              if (c =? 101)%N || (c =? 69)%N then
                let '(minus, rest') :=
                  match rest' with
                  | g :: r => if (g =? 45)%N then (true, r)
                              else if (g =? 43)%N then (false, r)
                              else (false, rest')
                  | [] => (false, rest')
                  end in
                let '(j, v, rest'') := read_digits rest' 0 in
                if j =? 0 then None
                else Some ((if minus then - v else v)%Z, rest'')
              else Some (0%Z, rest)
          | [] => Some (0%Z, rest)
          end in
        match exponent with
        | None => None
        | Some (e, rest) =>
            let x := decimal m (e - Z.of_nat k) in
            Some (if negative then (- x)%float else x, rest)
        end
    end.

(** [JSON.parse] keeps the last value of a repeated key, at the place of
    the first. *)
Fixpoint set_member (k : JSString) (v : JsValue)
    (fields : list (JSString * JsValue)) : list (JSString * JsValue) :=
  match fields with
  | [] => [(k, v)]
  | (k', v') :: rest =>
      if str_eqb k' k then (k', v) :: rest else (k', v') :: set_member k v rest
  end.

Definition read_word (word : string) (v : JsValue) (s : JSString)
  : option (JsValue * JSString) :=
  if startsWith (lit word) s
  then Some (v, drop (length (lit word)) s)
  else None.

(** A value at the head of [s] (after white space) and the rest of the
    text; [fuel] bounds the nesting and the number of members. *)
Fixpoint read_value (fuel : nat) (s : JSString) : option (JsValue * JSString) :=
  match fuel with
  | 0 => None
  | S fuel =>
      match skip_ws s with
      | [] => None
      | c :: s' =>
          if (c =? 34)%N then
            match read_chars s' [] with
            | Some (str, rest) => Some (JString str, rest)
            | None => None
            end
          else if (c =? 91)%N then
            match skip_ws s' with
            | d :: rest => if (d =? 93)%N then Some (JArray [], rest)
                           else read_items fuel s' []
            | [] => None
            end
          else if (c =? 123)%N then
            match skip_ws s' with
            | d :: rest => if (d =? 125)%N then Some (JObject [], rest)
                           else read_members fuel s' []
            | [] => None
            end
          else if (c =? 116)%N then read_word "true" (JBool true) (c :: s')
          else if (c =? 102)%N then read_word "false" (JBool false) (c :: s')
          else if (c =? 110)%N then read_word "null" JNull (c :: s')
          else
            match read_number (c :: s') with
            | Some (x, rest) => Some (JNumber x, rest)
            | None => None
            end
      end
  end
with read_items (fuel : nat) (s : JSString) (acc : list JsValue)
  : option (JsValue * JSString) :=
  match fuel with
  | 0 => None
  | S fuel =>
      match read_value fuel s with
      | Some (v, rest) =>
          match skip_ws rest with
          | c :: rest' =>
              if (c =? 44)%N then read_items fuel rest' (acc ++ [v])
              else if (c =? 93)%N then Some (JArray (acc ++ [v]), rest')
              else None
          | [] => None
          end
      | None => None
      end
  end
with read_members (fuel : nat) (s : JSString) (acc : list (JSString * JsValue))
  : option (JsValue * JSString) :=
  match fuel with
  | 0 => None
  | S fuel =>
      match skip_ws s with
      | q :: s' =>
          if (q =? 34)%N then
            match read_chars s' [] with
            | Some (k, rest) =>
                match skip_ws rest with
                | colon :: rest' =>
                    if (colon =? 58)%N then
                      match read_value fuel rest' with
                      | Some (v, rest'') =>
                          match skip_ws rest'' with
                          | c :: rest3 =>
                              if (c =? 44)%N
                              then read_members fuel rest3 (set_member k v acc)
                              else if (c =? 125)%N
                              then Some (JObject (set_member k v acc), rest3)
                              else None
                          | [] => None
                          end
                      | None => None
                      end
                    else None
                | [] => None
                end
            | None => None
            end
          else None
      | [] => None
      end
  end.

(** The whole text is one value.  Of two nested calls of the reader at
    least one uses up a character, so twice the length of the text is
    fuel enough. *)
Definition parse (text : JSString) : option JsValue :=
  match read_value (S (2 * length text)) text with
  | Some (v, rest) =>
      match skip_ws rest with
      | [] => Some v
      | _ :: _ => None
      end
  | None => None
  end.

End Json.

(** A host to run the model in: lower-casing of the ASCII letters, the
    reader of JSON above, endpoints that are all well formed, and the
    [send] of [ws] 8, which throws on a socket that is still
    connecting. *)
Definition ascii_host : Host :=
  {| toLowerCase := ascii_toLowerCase;
     JSON_parse := Json.parse;
     ws_rejects_url := fun _ => false;
     ws_send_throws := fun r => bool_decide (r = CONNECTING) |}.

(** ** Results of calls and a state monad with exceptions *)

Module Eff.

(** A call returns a value or throws; of what is thrown the model keeps
    the name or the message. *)
Inductive Outcome (A : Type) :=
  | Normal (a : A)
  | Throw (e : string).
Arguments Normal {A} a.
Arguments Throw {A} e.

(** A method over an object state [S]. *)
Definition M (S A : Type) : Type := S -> Outcome A * S.

Definition ret {S A} (a : A) : M S A := fun s => (Normal a, s).

Definition bind {S A B} (m : M S A) (k : A -> M S B) : M S B :=
  fun s =>
    match m s with
    | (Normal a, s') => k a s'
    | (Throw e, s') => (Throw e, s')
    end.

Definition throw {S A} (e : string) : M S A := fun s => (Throw e, s).

(** [try { body } catch (error) { handler }]. *)
Definition try_catch {S A} (body : M S A) (handler : string -> M S A) : M S A :=
  fun s =>
    match body s with
    | (Normal a, s') => (Normal a, s')
    | (Throw e, s') => handler e s'
    end.

Definition get {S} : M S S := fun s => (Normal s, s).
Definition modify {S} (f : S -> S) : M S unit := fun s => (Normal tt, f s).

(** The result of an external call, given by the environment. *)
Definition lift {S A} (o : Outcome A) : M S A := fun s => (o, s).

(** A settled promise, as an [async] method leaves it: fulfilled with the
    returned value, or rejected with what was thrown. *)
Inductive Promise (A : Type) :=
  | Fulfilled (a : A)
  | Rejected (e : string).
Arguments Fulfilled {A} a.
Arguments Rejected {A} e.

Definition settle {A} (o : Outcome A) : Promise A :=
  match o with
  | Normal a => Fulfilled a
  | Throw e => Rejected e
  end.

End Eff.
Import Eff.

(** [let* x := m in k] runs [m], then [k] on its result; a throw in [m]
    skips [k]. *)
Notation "'let*' x ':=' m 'in' k" := (bind m (fun x => k))
  (at level 10, x name, m at level 100, k at level 200).

(** ** QuestionClassifier *)

Module Classifier.

(** [enum QuestionType]. *)
Inductive QuestionType :=
  | BEHAVIORAL
  | SYSTEM_DESIGN
  | OBJECT_ORIENTED_DESIGN
  | CODING
  | UNKNOWN.

#[global] Instance QuestionType_eq_dec : EqDecision QuestionType.
Proof. solve_decision. Defined.

(** [keywordMap], in the insertion order that [Object.entries] follows
    (no key is an array index). *)
Definition keywordMap : list (QuestionType * list JSString) :=
  [ (BEHAVIORAL, map lit
      [ "tell me about a time"; "describe a situation"; "give me an example";
        "how did you handle"; "what would you do if"; "leadership";
        "challenge"; "conflict"; "mistake"; "failure"; "success"; "team";
        "difficult"; "proud"; "disagreement" ]%string);
    (SYSTEM_DESIGN, map lit
      [ "design a system"; "system architecture"; "scalability";
        "distributed"; "microservices"; "database design";
        "how would you design"; "architect"; "scale"; "throughput";
        "latency"; "availability"; "reliability" ]%string);
    (OBJECT_ORIENTED_DESIGN, map lit
      [ "object oriented"; "class diagram"; "inheritance"; "polymorphism";
        "encapsulation"; "abstraction"; "design pattern"; "singleton";
        "factory"; "observer"; "strategy" ]%string);
    (CODING, map lit
      [ "implement"; "function"; "algorithm"; "complexity";
        "time complexity"; "space complexity"; "data structure"; "array";
        "linked list"; "tree"; "graph"; "hash table";
        "dynamic programming"; "recursion"; "iteration" ]%string) ].

(** The objects [{ type, score }] of [quickClassify]. *)
Record Scored := { type : QuestionType; score : nat }.

Section WithHost.
Context `{Host}.

(** The inner [reduce]: one more for each keyword the text includes. *)
Definition matchCount (lowerText : JSString) (keywords : list JSString) : nat :=
  fold_left
    (fun count keyword => count + (if includes lowerText keyword then 1 else 0))
    keywords 0.

(** The outer [reduce]: a later entry wins only with a strictly higher
    score. *)
Definition bestOf (scores : list Scored) (init : Scored) : Scored :=
  fold_left
    (fun best current => if score best <? score current then current else best)
    scores init.

Definition quickClassify (text : JSString) : QuestionType :=
  let lowerText := toLowerCase text in
  let scores :=
    map (fun '(type, keywords) =>
           {| type := type; score := matchCount lowerText keywords |})
        keywordMap in
  let bestMatch := bestOf scores {| type := UNKNOWN; score := 0 |} in
  if 0 <? score bestMatch then type bestMatch else UNKNOWN.

(** [detailedClassify]: an [async] method, so its result is a promise. *)
Definition detailedClassify (text : JSString) : Promise QuestionType :=
  settle (Normal (quickClassify text)).

End WithHost.

End Classifier.

(** ** Numbers and typed arrays *)

Module Num.

Open Scope float_scope.

(** [Math.min] and [Math.max] on two arguments: NaN if either is NaN, and
    -0 is below +0. *)
Definition Math_min (a b : float) : float :=
  if is_nan a || is_nan b then nan
  else if a <? b then a
  else if b <? a then b
  else if get_sign a then a else b.

Definition Math_max (a b : float) : float :=
  if is_nan a || is_nan b then nan
  else if a <? b then b
  else if b <? a then a
  else if get_sign a then b else a.

(** The integer part of a number, towards zero; 0 for NaN and the
    infinities (the first steps of [ToInt16]). *)
Definition truncate (x : float) : Z :=
  match Prim2SF x with
  | S754_finite s m e =>
      let v := if (0 <=? e)%Z then (Z.pos m * 2 ^ e)%Z
               else (Z.pos m / 2 ^ (- e))%Z in
      if s then (- v)%Z else v
  | _ => 0%Z
  end.

(** [ToInt16]: what a store into an [Int16Array] element keeps. *)
Definition ToInt16 (x : float) : Z :=
  let int16bit := (truncate x mod 65536)%Z in
  if (32768 <=? int16bit)%Z then (int16bit - 65536)%Z else int16bit.

(** The two bytes of a 16-bit element in the buffer of its array, low
    byte first: the byte order of every platform Electron runs on. *)
Definition int16_bytes (v : Z) : list Z :=
  [ (v mod 256)%Z; ((v / 256) mod 256)%Z ].

(** [new Uint8Array(a.buffer)] for an [Int16Array] [a]. *)
Definition buffer_bytes (a : list Z) : list Z :=
  concat (map int16_bytes a).

End Num.

(** ** RealtimeTranscriptionManager *)

Module Manager.

(** The events the manager emits, with their payloads. *)
Inductive Event :=
  | E_connected
  | E_error (e : string)
  | E_disconnected
  | E_transcription_delta (text itemId contentIndex : JsValue)
  | E_transcription_completed (text itemId contentIndex : JsValue)
  | E_speech_started (audioStartMs itemId : JsValue)
  | E_speech_stopped (audioEndMs itemId : JsValue)
  | E_api_error (e : JsValue).

(** The events of a socket a listener can be registered for. *)
Inductive Listener := L_open | L_error | L_close | L_message.

#[global] Instance Listener_eq_dec : EqDecision Listener.
Proof. solve_decision. Defined.

(** A [WebSocket] object: its endpoint, its state, the frames written to
    it (each the value whose [JSON.stringify] text went out) and the
    listeners registered with [on], oldest first. *)
Record WebSocket := {
  url : JSString;
  readyState : ReadyState;
  sent : list JsValue;
  listeners : list Listener;
}.

(** The fields of the manager; [wsConnection] refers to a socket of the
    heap by its index. *)
Record Fields := {
  apiKey : JSString;
  provider : JSString;
  wsConnection : option nat;
  sessionToken : JsValue;
  isConnected : bool;
}.

(** The manager with what it acts on: the sockets it has created, the
    events it has emitted and the lines it has logged, oldest first.
    [emit] is taken to return: listeners of the manager do not throw, and
    one is registered for ['error']. *)
Record World := {
  this : Fields;
  sockets : list WebSocket;
  emitted : list Event;
  console : list string;
}.

Definition set_this (f : Fields -> Fields) (w : World) : World :=
  {| this := f (this w); sockets := sockets w;
     emitted := emitted w; console := console w |}.

Definition set_wsConnection (c : option nat) (t : Fields) : Fields :=
  {| apiKey := apiKey t; provider := provider t; wsConnection := c;
     sessionToken := sessionToken t; isConnected := isConnected t |}.

Definition set_sessionToken (v : JsValue) (t : Fields) : Fields :=
  {| apiKey := apiKey t; provider := provider t; wsConnection := wsConnection t;
     sessionToken := v; isConnected := isConnected t |}.

Definition set_isConnected (b : bool) (t : Fields) : Fields :=
  {| apiKey := apiKey t; provider := provider t; wsConnection := wsConnection t;
     sessionToken := sessionToken t; isConnected := b |}.

Definition set_sockets (f : list WebSocket -> list WebSocket) (w : World) : World :=
  {| this := this w; sockets := f (sockets w);
     emitted := emitted w; console := console w |}.

Definition emit (e : Event) : M World unit :=
  modify (fun w => {| this := this w; sockets := sockets w;
                      emitted := emitted w ++ [e]; console := console w |}).

Definition console_log (line : string) : M World unit :=
  modify (fun w => {| this := this w; sockets := sockets w;
                      emitted := emitted w; console := console w ++ [line] |}).

(** [constructor(apiKey, provider = 'openai')]. *)
Definition new_manager (apiKey : JSString) (provider : option JSString) : World :=
  {| this := {| apiKey := apiKey;
                provider := default (lit "openai") provider;
                wsConnection := None;
                sessionToken := JNull;
                isConnected := false |};
     sockets := []; emitted := []; console := [] |}.

(** A property read [v.k]: a TypeError on [null] and [undefined]; on an
    object its own property; [undefined] on the other values.  No name
    the manager reads is inherited from a prototype. *)
Definition getProp (v : JsValue) (k : string) : M World JsValue :=
  match v with
  | JUndefined | JNull => throw "TypeError"
  | JObject fields => ret (own_property fields (lit k))
  | _ => ret JUndefined
  end.

Section WithHost.
Context `{Host}.

(** *** The socket library *)

(** [new WebSocket(url)]: a fresh socket, connecting, at the end of the
    heap. *)
Definition new_WebSocket (url : JSString) : M World nat :=
  if ws_rejects_url url then throw "SyntaxError"
  else
    let* w := get in
    let* _ := modify (set_sockets (fun l =>
      l ++ [ {| url := url; readyState := CONNECTING;
                sent := []; listeners := [] |} ])) in
    ret (length (sockets w)).

Definition update_socket (h : nat) (f : WebSocket -> WebSocket) : M World unit :=
  modify (set_sockets (fun l =>
    match l !! h with
    | Some ws => <[h := f ws]> l
    | None => l
    end)).

(** [socket.on(name, handler)]. *)
Definition ws_on (h : nat) (name : Listener) : M World unit :=
  update_socket h (fun ws =>
    {| url := url ws; readyState := readyState ws;
       sent := sent ws; listeners := listeners ws ++ [name] |}).

(** [socket.send(frame)], called without a callback: where it does not
    throw, the frame goes out if the socket is open, and is dropped
    without a word if it is not. *)
Definition ws_send (h : nat) (frame : JsValue) : M World unit :=
  let* w := get in
  match sockets w !! h with
  | Some ws =>
      if ws_send_throws (readyState ws) then throw "WebSocket is not open"
      else
        match readyState ws with
        | OPEN =>
            update_socket h (fun ws =>
              {| url := url ws; readyState := readyState ws;
                 sent := sent ws ++ [frame]; listeners := listeners ws |})
        | _ => ret tt
        end
  | None => throw "TypeError"
  end.

Definition set_readyState (r : ReadyState) (ws : WebSocket) : WebSocket :=
  {| url := url ws; readyState := r;
     sent := sent ws; listeners := listeners ws |}.

(** [socket.close()]: starts the closing handshake of a socket that is
    not closed yet. *)
Definition ws_close (h : nat) : M World unit :=
  update_socket h (fun ws =>
    match readyState ws with
    | CLOSED => ws
    | _ => set_readyState CLOSING ws
    end).

(** *** Session negotiation *)

(** [createOpenAISession]; [response] is what [fetch] and
    [response.json()] gave: the decoded body, or what either threw. *)
Definition createOpenAISession (response : Outcome JsValue) : M World bool :=
  try_catch
    (let* data := lift response in
     let* client_secret := getProp data "client_secret" in
     let* held :=
       (if truthy client_secret then getProp client_secret "value"
        else ret client_secret) in
     if truthy held then
       let* value := getProp client_secret "value" in
       let* _ := modify (set_this (set_sessionToken value)) in
       ret true
     else
       let* _ := console_log "Failed to obtain OpenAI session token" in
       ret false)
    (fun _ =>
       let* _ := console_log "Error creating OpenAI transcription session" in
       ret false).

(** [createDeepSeekSession]. *)
Definition createDeepSeekSession (response : Outcome JsValue) : M World bool :=
  try_catch
    (let* data := lift response in
     let* session_token := getProp data "session_token" in
     if truthy session_token then
       let* _ := modify (set_this (set_sessionToken session_token)) in
       ret true
     else
       let* _ := console_log "Failed to obtain DeepSeek session token" in
       ret false)
    (fun _ =>
       let* _ := console_log "Error creating DeepSeek transcription session" in
       ret false).

Definition createTranscriptionSession (response : Outcome JsValue) : M World bool :=
  let* w := get in
  if str_eqb (provider (this w)) (lit "deepseek")
  then createDeepSeekSession response
  else createOpenAISession response.

(** *** Inbound messages *)

(** A [case] of [switch (message.type)]: the label is strictly equal to
    the value.  The cases are tried in the order they are written. *)
Definition is_case (v : JsValue) (label : string) : bool :=
  match v with
  | JString s => str_eqb s (lit label)
  | _ => false
  end.

Definition handleOpenAIMessage (message : JsValue) : M World unit :=
  let* ty := getProp message "type" in
  if is_case ty "conversation.item.input_audio_transcription.delta" then
    let* text := getProp message "delta" in
    let* itemId := getProp message "item_id" in
    let* contentIndex := getProp message "content_index" in
    emit (E_transcription_delta text itemId contentIndex)
  else if is_case ty "conversation.item.input_audio_transcription.completed" then
    let* text := getProp message "transcript" in
    let* itemId := getProp message "item_id" in
    let* contentIndex := getProp message "content_index" in
    emit (E_transcription_completed text itemId contentIndex)
  else if is_case ty "input_audio_buffer.speech_started" then
    let* audioStartMs := getProp message "audio_start_ms" in
    let* itemId := getProp message "item_id" in
    emit (E_speech_started audioStartMs itemId)
  else if is_case ty "input_audio_buffer.speech_stopped" then
    let* audioEndMs := getProp message "audio_end_ms" in
    let* itemId := getProp message "item_id" in
    emit (E_speech_stopped audioEndMs itemId)
  else if is_case ty "error" then
    let* e := getProp message "error" in
    let* _ := console_log "API error" in
    emit (E_api_error e)
  else
    console_log "OpenAI WebSocket message".

Definition handleDeepSeekMessage (message : JsValue) : M World unit :=
  let* ty := getProp message "type" in
  if is_case ty "transcription.partial" then
    let* text := getProp message "text" in
    let* id := getProp message "id" in
    emit (E_transcription_delta text (or_else id (JString (lit "0")))
            (JNumber 0))
  else if is_case ty "transcription.final" then
    let* text := getProp message "text" in
    let* id := getProp message "id" in
    emit (E_transcription_completed text (or_else id (JString (lit "0")))
            (JNumber 0))
  else if is_case ty "speech.started" then
    let* timestamp := getProp message "timestamp" in
    let* id := getProp message "id" in
    emit (E_speech_started timestamp (or_else id (JString (lit "0"))))
  else if is_case ty "speech.stopped" then
    let* timestamp := getProp message "timestamp" in
    let* id := getProp message "id" in
    emit (E_speech_stopped timestamp (or_else id (JString (lit "0"))))
  else if is_case ty "error" then
    let* e := getProp message "error" in
    let* _ := console_log "DeepSeek API error" in
    emit (E_api_error e)
  else
    console_log "DeepSeek WebSocket message".

(** The ['message'] listener that [setupWebSocketListeners] registers;
    [data] is the text of the frame. *)
Definition on_message (data : JSString) : M World unit :=
  try_catch
    (let* message :=
       match JSON_parse data with
       | Some v => ret v
       | None => throw "SyntaxError"
       end in
     let* w := get in
     if str_eqb (provider (this w)) (lit "deepseek")
     then handleDeepSeekMessage message
     else handleOpenAIMessage message)
    (fun _ => console_log "Error processing WebSocket message").

Definition setupWebSocketListeners : M World unit :=
  let* w := get in
  match wsConnection (this w) with
  | None => ret tt
  | Some c => ws_on c L_message
  end.

(** *** Connecting *)

(** The ['open'], ['error'] and ['close'] listeners that
    [connectToWebSocket] registers on the socket it creates.  They read
    [this.wsConnection] when they run, not the socket they were
    registered on. *)
Definition on_open : M World unit :=
  let* w := get in
  let authMessage :=
    JObject [ (lit "type", JString (lit "auth"));
              (lit "token", sessionToken (this w)) ] in
  let* _ :=
    match wsConnection (this w) with
    | Some c => ws_send c authMessage
    | None => ret tt
    end in
  let* _ := modify (set_this (set_isConnected true)) in
  let* _ := setupWebSocketListeners in
  emit E_connected.

Definition on_error (e : string) : M World unit :=
  let* _ := console_log "WebSocket error" in
  emit (E_error e).

Definition on_close : M World unit :=
  let* _ := modify (set_this (set_isConnected false)) in
  emit E_disconnected.

Definition connectToWebSocket : M World bool :=
  let* w := get in
  if negb (truthy (sessionToken (this w))) then
    let* _ := console_log "No session token available" in
    ret false
  else
    try_catch
      (let wsEndpoint :=
         if str_eqb (provider (this w)) (lit "deepseek")
         then lit "wss://api.deepseek.com/v1/audio/realtime"
         else lit "wss://api.openai.com/v1/audio/realtime" in
       let* c := new_WebSocket wsEndpoint in
       let* _ := modify (set_this (set_wsConnection (Some c))) in
       let* _ := ws_on c L_open in
       let* _ := ws_on c L_error in
       let* _ := ws_on c L_close in
       ret true)
      (fun _ =>
         let* _ := console_log "Error connecting to WebSocket" in
         ret false).

(** *** Sending audio *)

(** [sendAudioChunk]; [now] is what [Date.now()] returns. *)
Definition sendAudioChunk (now : float) (audioData : list Z) : M World bool :=
  let* w := get in
  match wsConnection (this w) with
  | None => ret false
  | Some c =>
      if negb (isConnected (this w)) then ret false
      else
        try_catch
          (let base64Audio := base64 audioData in
           let message :=
             if str_eqb (provider (this w)) (lit "deepseek")
             then JObject [ (lit "type", JString (lit "audio.chunk"));
                            (lit "audio", JString base64Audio);
                            (lit "timestamp", JNumber now) ]
             else JObject [ (lit "type", JString (lit "input_audio_buffer.append"));
                            (lit "audio", JString base64Audio) ] in
           let* _ := ws_send c message in
           ret true)
          (fun _ =>
             let* _ := console_log "Error sending audio chunk" in
             ret false)
  end.

(** *** Closing and the accessors *)

Definition close : M World unit :=
  let* w := get in
  match wsConnection (this w) with
  | Some c =>
      let* _ := ws_close c in
      let* _ := modify (set_this (set_wsConnection None)) in
      modify (set_this (set_isConnected false))
  | None => ret tt
  end.

Definition isActive (w : World) : bool := isConnected (this w).

Definition getProvider (w : World) : JSString := provider (this w).

(** *** The manager in its environment *)

(** What a socket reports to its listeners. *)
Inductive SocketEvent :=
  | Ev_open
  | Ev_error (e : string)
  | Ev_close
  | Ev_message (data : JSString).

Definition listener_of (ev : SocketEvent) : Listener :=
  match ev with
  | Ev_open => L_open
  | Ev_error _ => L_error
  | Ev_close => L_close
  | Ev_message _ => L_message
  end.

(** Every listener the manager registers for an event is the same
    closure over [this]. *)
Definition handler (ev : SocketEvent) : M World unit :=
  match ev with
  | Ev_open => on_open
  | Ev_error e => on_error e
  | Ev_close => on_close
  | Ev_message data => on_message data
  end.

(** The life cycle of a socket: it opens once, from connecting; it
    delivers frames while open or closing; it may fail until it is
    closed; it closes once. *)
Definition may_occur (ev : SocketEvent) (r : ReadyState) : bool :=
  match ev, r with
  | Ev_open, CONNECTING => true
  | Ev_open, _ => false
  | Ev_message _, (OPEN | CLOSING) => true
  | Ev_message _, _ => false
  | (Ev_error _ | Ev_close), CLOSED => false
  | (Ev_error _ | Ev_close), _ => true
  end.

Definition state_after (ev : SocketEvent) (r : ReadyState) : ReadyState :=
  match ev with
  | Ev_open => OPEN
  | Ev_error _ => CLOSING
  | Ev_close => CLOSED
  | Ev_message _ => r
  end.

(** The listeners registered for the event run in registration order; one
    that throws ends the round. *)
Fixpoint run_listeners (ls : list Listener) (ev : SocketEvent) : M World unit :=
  match ls with
  | [] => ret tt
  | l :: ls' =>
      if bool_decide (l = listener_of ev)
      then let* _ := handler ev in run_listeners ls' ev
      else run_listeners ls' ev
  end.

(** Socket [h] reports [ev]. *)
Definition deliver (h : nat) (ev : SocketEvent) : M World unit :=
  let* w := get in
  match sockets w !! h with
  | Some ws =>
      let* _ := update_socket h (set_readyState (state_after ev (readyState ws))) in
      run_listeners (listeners ws) ev
  | None => ret tt
  end.

(** What can happen to a manager: a call of a public method, or an event
    of one of its sockets. *)
Inductive Action :=
  | A_createTranscriptionSession (response : Outcome JsValue)
  | A_connectToWebSocket
  | A_sendAudioChunk (now : float) (audioData : list Z)
  | A_close
  | A_socket (h : nat) (ev : SocketEvent).

Definition enabled (a : Action) (w : World) : bool :=
  match a with
  | A_socket h ev =>
      match sockets w !! h with
      | Some ws => may_occur ev (readyState ws)
      | None => false
      end
  | _ => true
  end.

(** The world after an action; what the action returned or threw is
    dropped. *)
Definition perform (a : Action) (w : World) : World :=
  match a with
  | A_createTranscriptionSession response =>
      snd (createTranscriptionSession response w)
  | A_connectToWebSocket => snd (connectToWebSocket w)
  | A_sendAudioChunk now audioData => snd (sendAudioChunk now audioData w)
  | A_close => snd (close w)
  | A_socket h ev => snd (deliver h ev w)
  end.

(** The worlds a manager can be in. *)
Inductive reachable : World -> Prop :=
  | reachable_new apiKey provider :
      reachable (new_manager apiKey provider)
  | reachable_step w a :
      reachable w -> enabled a w = true -> reachable (perform a w).

(** A run of actions, [None] if one of them cannot happen where it
    stands. *)
Fixpoint run (actions : list Action) (w : World) : option World :=
  match actions with
  | [] => Some w
  | a :: rest => if enabled a w then run rest (perform a w) else None
  end.

End WithHost.

End Manager.

(** ** SystemAudioCapture *)

Module Capture.

Import Num.

(** The parts of the platform objects the service reads or sets. *)
Record DesktopSource := { source_id : JSString }.
Record MediaStream := { chromeMediaSourceId : JSString; tracks_stopped : bool }.
Record AudioContext := { sampleRate : Z }.
Record SourceNode := { source_connected : bool }.
Record ProcessorNode := {
  bufferSize : Z;
  onaudioprocess_set : bool;
  processor_connected : bool;
}.

Record Fields := {
  mediaStream : option MediaStream;
  audioContext : option AudioContext;
  sourceNode : option SourceNode;
  processorNode : option ProcessorNode;
  isCapturing : bool;
}.

(** The service and the lines it has logged. *)
Record State := {
  this : Fields;
  console : list string;
}.

(** What the platform answers to the calls of one [startCapturing]:
    - [getSources]: [desktopCapturer.getSources];
    - [getUserMedia]: [navigator.mediaDevices.getUserMedia] for a source
      id, the stream it resolves to or what it rejects with;
    - [new_AudioContext]: the constructor, at a sample rate;
    - [createMediaStreamSource], [createScriptProcessor]: whether the
      node factories of the context return or throw. *)
Record Platform := {
  getSources : Outcome (list DesktopSource);
  getUserMedia : JSString -> Outcome MediaStream;
  new_AudioContext : Z -> Outcome AudioContext;
  createMediaStreamSource : Outcome unit;
  createScriptProcessor : Z -> Outcome unit;
}.

Definition new_capture : State :=
  {| this := {| mediaStream := None; audioContext := None; sourceNode := None;
                processorNode := None; isCapturing := false |};
     console := [] |}.

Definition set_this (f : Fields -> Fields) (s : State) : State :=
  {| this := f (this s); console := console s |}.

Definition console_log (line : string) : M State unit :=
  modify (fun s => {| this := this s; console := console s ++ [line] |}).

Definition set_mediaStream (v : option MediaStream) (t : Fields) : Fields :=
  {| mediaStream := v; audioContext := audioContext t;
     sourceNode := sourceNode t; processorNode := processorNode t;
     isCapturing := isCapturing t |}.

Definition set_audioContext (v : option AudioContext) (t : Fields) : Fields :=
  {| mediaStream := mediaStream t; audioContext := v;
     sourceNode := sourceNode t; processorNode := processorNode t;
     isCapturing := isCapturing t |}.

Definition set_sourceNode (v : option SourceNode) (t : Fields) : Fields :=
  {| mediaStream := mediaStream t; audioContext := audioContext t;
     sourceNode := v; processorNode := processorNode t;
     isCapturing := isCapturing t |}.

Definition set_processorNode (v : option ProcessorNode) (t : Fields) : Fields :=
  {| mediaStream := mediaStream t; audioContext := audioContext t;
     sourceNode := sourceNode t; processorNode := v;
     isCapturing := isCapturing t |}.

Definition set_isCapturing (v : bool) (t : Fields) : Fields :=
  {| mediaStream := mediaStream t; audioContext := audioContext t;
     sourceNode := sourceNode t; processorNode := processorNode t;
     isCapturing := v |}.

(** *** convertToPCM16 *)

Open Scope float_scope.

(** What the body of the loop computes for a sample [x]. *)
Definition stored (x : float) : Z :=
  let s := Math_max (-1) (Math_min 1 x) in
  ToInt16 (if s <? 0 then s * 32768 else s * 32767).

(** The body of the loop for index [i]: the store into [pcm16[i]].  A
    read past the end of [float32Array] is [undefined], NaN as a
    number. *)
Definition convert_at (float32Array : list float) (pcm16 : list Z) (i : nat) : list Z :=
  <[ i := stored (nth i float32Array nan) ]> pcm16.

Definition convertToPCM16 (float32Array : list float) : list Z :=
  let pcm16 := replicate (length float32Array) 0%Z in
  let pcm16 := fold_left (convert_at float32Array)
                         (seq 0 (length float32Array)) pcm16 in
  buffer_bytes pcm16.

Close Scope float_scope.

(** *** The methods

    [tm] is the transcription manager the service was constructed with;
    the service reads its provider and, from the audio callback, calls
    its [sendAudioChunk]. *)

Definition initialize (tm : Manager.World) (p : Platform) : M State bool :=
  try_catch
    (let provider := Manager.getProvider tm in
     let sampleRate := if str_eqb provider (lit "deepseek") then 16000%Z else 24000%Z in
     let* _ := console_log "Initializing AudioContext" in
     let* ctx := lift (new_AudioContext p sampleRate) in
     let* _ := modify (set_this (set_audioContext (Some ctx))) in
     ret true)
    (fun _ =>
       let* _ := console_log "Failed to initialize audio context" in
       ret false).

Definition startCapturing (tm : Manager.World) (p : Platform) : M State bool :=
  let* s := get in
  if isCapturing (this s) then ret true
  else
    try_catch
      (let* sources := lift (getSources p) in
       match sources with
       | [] =>
           let* _ := console_log "No screen or window sources found" in
           ret false
       | first :: _ =>
           let streamId := source_id first in
           let* stream := lift (getUserMedia p streamId) in
           let* _ := modify (set_this (set_mediaStream (Some stream))) in
           let* s := get in
           let* _ :=
             match audioContext (this s) with
             | None => initialize tm p
             | Some _ => ret true
             end in
           let* s := get in
           match audioContext (this s) with
           | None =>
               let* _ := console_log "Failed to initialize AudioContext" in
               ret false
           | Some _ =>
               let* _ := lift (createMediaStreamSource p) in
               let* _ := modify (set_this (set_sourceNode (Some
                 {| source_connected := false |}))) in
               let provider := Manager.getProvider tm in
               let size := if str_eqb provider (lit "deepseek") then 2048%Z else 4096%Z in
               let* _ := lift (createScriptProcessor p size) in
               let* _ := modify (set_this (set_processorNode (Some
                 {| bufferSize := size; onaudioprocess_set := false;
                    processor_connected := false |}))) in
               let* _ := modify (set_this (set_processorNode (Some
                 {| bufferSize := size; onaudioprocess_set := true;
                    processor_connected := false |}))) in
               let* _ := modify (set_this (set_sourceNode (Some
                 {| source_connected := true |}))) in
               let* _ := modify (set_this (set_processorNode (Some
                 {| bufferSize := size; onaudioprocess_set := true;
                    processor_connected := true |}))) in
               let* _ := modify (set_this (set_isCapturing true)) in
               ret true
           end
       end)
      (fun _ =>
         let* _ := console_log "Error capturing system audio" in
         ret false).

Definition stopCapturing : M State unit :=
  let* s := get in
  if negb (isCapturing (this s)) then ret tt
  else
    let* _ :=
      match mediaStream (this s) with
      | Some _ => modify (set_this (set_mediaStream None))
      | None => ret tt
      end in
    let* _ :=
      match processorNode (this s), audioContext (this s) with
      | Some _, Some _ => modify (set_this (set_processorNode None))
      | _, _ => ret tt
      end in
    let* _ :=
      match sourceNode (this s) with
      | Some _ => modify (set_this (set_sourceNode None))
      | None => ret tt
      end in
    modify (set_this (set_isCapturing false)).

Definition isActive (s : State) : bool := isCapturing (this s).

(** The audio callback of the processor node, on one buffer of channel
    0; it runs in the manager. *)
Definition onaudioprocess `{Host} (now : float) (inputData : list float)
  : M Manager.World bool :=
  Manager.sendAudioChunk now (convertToPCM16 inputData).

End Capture.

(** ** The voice recognition slice of the store
    (store/voiceRecognitionSlice.ts, lines 1-54) *)

Module VoiceSlice.

(** The string values of [enum QuestionType]. *)
Definition QuestionType_value (c : Classifier.QuestionType) : JSString :=
  match c with
  | Classifier.BEHAVIORAL => lit "Behavioral Question"
  | Classifier.SYSTEM_DESIGN => lit "System Design"
  | Classifier.OBJECT_ORIENTED_DESIGN => lit "Object-Oriented Design"
  | Classifier.CODING => lit "Coding Problem"
  | Classifier.UNKNOWN => lit "Unknown"
  end.

Record VoiceRecognitionState := {
  isActive : bool;
  isSpeaking : bool;
  transcript : JSString;
  questionType : JSString;
}.

Definition initialState : VoiceRecognitionState :=
  {| isActive := false; isSpeaking := false; transcript := [];
     questionType := QuestionType_value Classifier.UNKNOWN |}.

(** The actions of the slice, and any action that is not one of them. *)
Inductive Action :=
  | startVoiceRecognition
  | stopVoiceRecognition
  | setSpeakingState (payload : bool)
  | setTranscript (payload : JSString)
  | setQuestionType (payload : JSString)
  | resetVoiceRecognition
  | other_action.

(** The reducer that [createSlice] builds from the case reducers: the
    state written by the case of the action, the same state for an action
    of another slice. *)
Definition reducer (state : VoiceRecognitionState) (action : Action)
  : VoiceRecognitionState :=
  match action with
  | startVoiceRecognition =>
      {| isActive := true; isSpeaking := isSpeaking state;
         transcript := transcript state; questionType := questionType state |}
  | stopVoiceRecognition =>
      {| isActive := false; isSpeaking := false;
         transcript := transcript state; questionType := questionType state |}
  | setSpeakingState payload =>
      {| isActive := isActive state; isSpeaking := payload;
         transcript := transcript state; questionType := questionType state |}
  | setTranscript payload =>
      {| isActive := isActive state; isSpeaking := isSpeaking state;
         transcript := payload; questionType := questionType state |}
  | setQuestionType payload =>
      {| isActive := isActive state; isSpeaking := isSpeaking state;
         transcript := transcript state; questionType := payload |}
  | resetVoiceRecognition =>
      {| isActive := isActive state; isSpeaking := isSpeaking state;
         transcript := [];
         questionType := QuestionType_value Classifier.UNKNOWN |}
  | other_action => state
  end.

(** The state of the store after the actions dispatched so far, oldest
    first (main.tsx: the store starts from [initialState]). *)
Definition dispatched (actions : list Action) : VoiceRecognitionState :=
  fold_left reducer actions initialState.

End VoiceSlice.

(** ** SpeechRecognitionService
    (store/voiceRecognitionSlice.ts, lines 54-237) *)

Module Speech.

(** A property of an options object: not there, there with the value
    [undefined], or there with a value. *)
Inductive Field (A : Type) :=
  | absent
  | undefined
  | given (a : A).
Arguments absent {A}.
Arguments undefined {A}.
Arguments given {A} a.

(** [{ ...a, ...b }] on one property: the property of [b] if it has
    it. *)
Definition spread {A} (a b : Field A) : Field A :=
  match b with
  | absent => a
  | _ => b
  end.

(** [SpeechRecognitionOptions]; a callback is known by a name. *)
Record SpeechRecognitionOptions := {
  continuous : Field bool;
  interimResults : Field bool;
  lang : Field JSString;
  onResult : Field nat;
  onStart : Field nat;
  onEnd : Field nat;
  onError : Field nat;
  onSpeechStart : Field nat;
  onSpeechEnd : Field nat;
}.

Definition spread_options (a b : SpeechRecognitionOptions) : SpeechRecognitionOptions :=
  {| continuous := spread (continuous a) (continuous b);
     interimResults := spread (interimResults a) (interimResults b);
     lang := spread (lang a) (lang b);
     onResult := spread (onResult a) (onResult b);
     onStart := spread (onStart a) (onStart b);
     onEnd := spread (onEnd a) (onEnd b);
     onError := spread (onError a) (onError b);
     onSpeechStart := spread (onSpeechStart a) (onSpeechStart b);
     onSpeechEnd := spread (onSpeechEnd a) (onSpeechEnd b) |}.

(** The field initialiser of [options]. *)
Definition default_options : SpeechRecognitionOptions :=
  {| continuous := given true; interimResults := given true;
     lang := given (lit "en-US");
     onResult := absent; onStart := absent; onEnd := absent;
     onError := absent; onSpeechStart := absent; onSpeechEnd := absent |}.

(** [flag || true] and [lang || 'en-US']. *)
Definition flag_or_true (f : Field bool) : bool :=
  match f with
  | given b => if b then b else true
  | _ => true
  end.

Definition lang_or_default (f : Field JSString) : JSString :=
  match f with
  | given (c :: l) => c :: l
  | _ => lit "en-US"
  end.

(** The recognition object of the browser: the three properties the
    service sets, whether the service has installed its handlers, and how
    often its [start] and [stop] were called. *)
Record Recognition := {
  r_continuous : bool;
  r_interimResults : bool;
  r_lang : JSString;
  handlers_installed : bool;
  start_calls : nat;
  stop_calls : nat;
}.

(** A recognition object as the browser constructs it. *)
Definition new_recognition : Recognition :=
  {| r_continuous := false; r_interimResults := false; r_lang := [];
     handlers_installed := false; start_calls := 0; stop_calls := 0 |}.

(** The calls of the callbacks of the options, by their names. *)
Inductive Call :=
  | called_onStart (f : nat)
  | called_onEnd (f : nat)
  | called_onError (f : nat) (event : string)
  | called_onSpeechStart (f : nat)
  | called_onSpeechEnd (f : nat)
  | called_onResult (f : nat) (transcript : JSString) (isFinal : bool).

(** The service, the lines it has logged and the callbacks it has
    called, oldest first.  A callback is taken to return. *)
Record Service := {
  recognition : option Recognition;
  isListening : bool;
  isSpeaking : bool;
  options : SpeechRecognitionOptions;
  console : list string;
  calls : list Call;
}.

(** [constructor()]; [api] tells whether the window offers
    [SpeechRecognition] or [webkitSpeechRecognition]. *)
Definition new_service (api : bool) : Service :=
  {| recognition := if api then Some new_recognition else None;
     isListening := false; isSpeaking := false;
     options := default_options; console := []; calls := [] |}.

Definition console_error (line : string) : M Service unit :=
  modify (fun s =>
    {| recognition := recognition s; isListening := isListening s;
       isSpeaking := isSpeaking s; options := options s;
       console := console s ++ [line]; calls := calls s |}).

Definition call (c : Call) : M Service unit :=
  modify (fun s =>
    {| recognition := recognition s; isListening := isListening s;
       isSpeaking := isSpeaking s; options := options s;
       console := console s; calls := calls s ++ [c] |}).

Definition set_recognition (r : Recognition) : M Service unit :=
  modify (fun s =>
    {| recognition := Some r; isListening := isListening s;
       isSpeaking := isSpeaking s; options := options s;
       console := console s; calls := calls s |}).

Definition set_options (o : SpeechRecognitionOptions) : M Service unit :=
  modify (fun s =>
    {| recognition := recognition s; isListening := isListening s;
       isSpeaking := isSpeaking s; options := o;
       console := console s; calls := calls s |}).

Definition set_isListening (b : bool) : M Service unit :=
  modify (fun s =>
    {| recognition := recognition s; isListening := b;
       isSpeaking := isSpeaking s; options := options s;
       console := console s; calls := calls s |}).

Definition set_isSpeaking (b : bool) : M Service unit :=
  modify (fun s =>
    {| recognition := recognition s; isListening := isListening s;
       isSpeaking := b; options := options s;
       console := console s; calls := calls s |}).

(** [setup(options)]. *)
Definition setup (opts : SpeechRecognitionOptions) : M Service unit :=
  let* s := get in
  match recognition s with
  | None => console_error "Speech recognition is not supported in this browser"
  | Some r =>
      let merged := spread_options (options s) opts in
      let* _ := set_options merged in
      set_recognition
        {| r_continuous := flag_or_true (continuous merged);
           r_interimResults := flag_or_true (interimResults merged);
           r_lang := lang_or_default (lang merged);
           handlers_installed := true;
           start_calls := start_calls r; stop_calls := stop_calls r |}
  end.

(** [recognition.start()] and [recognition.stop()]; [throws] tells
    whether the browser throws (as it does on a [start] while started). *)
Definition recognition_start (throws : bool) : M Service unit :=
  let* s := get in
  match recognition s with
  | None => throw "TypeError"
  | Some r =>
      if throws then throw "InvalidStateError"
      else set_recognition
             {| r_continuous := r_continuous r;
                r_interimResults := r_interimResults r; r_lang := r_lang r;
                handlers_installed := handlers_installed r;
                start_calls := S (start_calls r); stop_calls := stop_calls r |}
  end.

Definition recognition_stop (throws : bool) : M Service unit :=
  let* s := get in
  match recognition s with
  | None => throw "TypeError"
  | Some r =>
      if throws then throw "InvalidStateError"
      else set_recognition
             {| r_continuous := r_continuous r;
                r_interimResults := r_interimResults r; r_lang := r_lang r;
                handlers_installed := handlers_installed r;
                start_calls := start_calls r; stop_calls := S (stop_calls r) |}
  end.

(** [start()]. *)
Definition start (throws : bool) : M Service unit :=
  let* s := get in
  match recognition s with
  | None => console_error "Speech recognition is not supported in this browser"
  | Some _ =>
      if negb (isListening s) then
        try_catch (recognition_start throws)
          (fun _ => console_error "Error starting speech recognition:")
      else ret tt
  end.

(** [stop()]. *)
Definition stop (throws : bool) : M Service unit :=
  let* s := get in
  match recognition s with
  | None => ret tt
  | Some _ =>
      if isListening s then
        try_catch (recognition_stop throws)
          (fun _ => console_error "Error stopping speech recognition:")
      else ret tt
  end.

(** [getStatus()] and [isSupported()]. *)
Definition getStatus (s : Service) : bool * bool := (isListening s, isSpeaking s).

Definition isSupported (s : Service) : bool :=
  match recognition s with
  | Some _ => true
  | None => false
  end.

(** The results of a [SpeechRecognitionEvent]. *)
Record Alternative := { alt_transcript : JSString; confidence : float }.
Record Result := { alternatives : list Alternative; isFinal : bool }.

(** What the recognition object reports. *)
Inductive RecognitionEvent :=
  | Rec_start
  | Rec_end
  | Rec_error (event : string)
  | Rec_speechstart
  | Rec_speechend
  | Rec_result (results : list Result).

(** If the option is a callback, call it. *)
Definition when_given (f : Field nat) (c : nat -> Call) : M Service unit :=
  match f with
  | given name => call (c name)
  | _ => ret tt
  end.

(** The handlers that [setup] installs.  They read [this.options] when
    they run. *)
Definition handle (ev : RecognitionEvent) : M Service unit :=
  let* s := get in
  match ev with
  | Rec_start =>
      let* _ := set_isListening true in
      when_given (onStart (options s)) called_onStart
  | Rec_end =>
      let* _ := set_isListening false in
      when_given (onEnd (options s)) called_onEnd
  | Rec_error event =>
      when_given (onError (options s)) (fun f => called_onError f event)
  | Rec_speechstart =>
      let* _ := set_isSpeaking true in
      when_given (onSpeechStart (options s)) called_onSpeechStart
  | Rec_speechend =>
      let* _ := set_isSpeaking false in
      when_given (onSpeechEnd (options s)) called_onSpeechEnd
  | Rec_result results =>
      match onResult (options s) with
      | given f =>
          match last results with
          | None => throw "TypeError"
          | Some result =>
              match alternatives result with
              | [] => throw "TypeError"
              | first :: _ =>
                  call (called_onResult f (alt_transcript first) (isFinal result))
              end
          end
      | _ => ret tt
      end
  end.

(** The recognition object reports [ev]: its handler runs if [setup]
    has installed one. *)
Definition report (ev : RecognitionEvent) : M Service unit :=
  let* s := get in
  match recognition s with
  | Some r => if handlers_installed r then handle ev else ret tt
  | None => ret tt
  end.

End Speech.

(* ================================================================== *)
(** * Part II.  The vocabulary of the properties                       *)
(* ================================================================== *)

Module ClassifierSpec.

Import Classifier.

(** The keyword phrases associated with a category. *)
Definition keywordsOf (c : QuestionType) : list JSString :=
  match List.find (fun e => bool_decide (fst e = c)) keywordMap with
  | Some e => snd e
  | None => []
  end.

(** The fixed order of the categories. *)
Definition rank (c : QuestionType) : nat :=
  match c with
  | BEHAVIORAL => 0
  | SYSTEM_DESIGN => 1
  | OBJECT_ORIENTED_DESIGN => 2
  | CODING => 3
  | UNKNOWN => 4
  end.

(** How many of the phrases of a category occur in the lower-cased
    text. *)
Definition hits `{Host} (text : JSString) (c : QuestionType) : nat :=
  length (filter (fun k => includes (toLowerCase text) k = true) (keywordsOf c)).

End ClassifierSpec.

Module PcmSpec.

Import Num.

Open Scope float_scope.

(** Clamp a sample to [-1.0, 1.0]. *)
Definition clamp (x : float) : float :=
  if x <? -1 then -1 else if 1 <? x then 1 else x.

(** Scale negative values by 32768 and non-negative values by 32767. *)
Definition scale (s : float) : float :=
  if s <? 0 then s * 32768 else s * 32767.

(** The signed 16-bit integer of a sample. *)
Definition encode (x : float) : Z := ToInt16 (scale (clamp x)).

(** The 16-bit values of the samples, packed little-endian. *)
Definition pcm_reference (samples : list float) : list Z :=
  flat_map (fun x => [ (encode x mod 256)%Z; (encode x / 256 mod 256)%Z ])
           samples.

End PcmSpec.

Module ManagerSpec.

Import Manager.

(** *** Relations between the world before and after a call *)

(** [keeps R m]: the world [m] leaves is related by [R] to the world it
    started in, whether it returns or throws. *)
Definition keeps {A} (R : World -> World -> Prop) (m : M World A) : Prop :=
  forall w, R w (snd (m w)).

(** The manager and its sockets are as before. *)
Definition quiet (w w' : World) : Prop :=
  this w' = this w /\ sockets w' = sockets w.

(** Nothing but the token changes, and a token that changes is one that
    counts as obtained. *)
Definition negotiated (w w' : World) : Prop :=
  sockets w' = sockets w /\ emitted w' = emitted w
  /\ wsConnection (this w') = wsConnection (this w)
  /\ isConnected (this w') = isConnected (this w)
  /\ (sessionToken (this w') = sessionToken (this w)
      \/ truthy (sessionToken (this w')) = true).

(** *** Worlds after a step *)

(** The world after one more line of the console. *)
Definition with_line (line : string) (w : World) : World :=
  {| this := this w; sockets := sockets w;
     emitted := emitted w; console := console w ++ [line] |}.

(** The world after one more event. *)
Definition with_event (e : Event) (w : World) : World :=
  {| this := this w; sockets := sockets w;
     emitted := emitted w ++ [e]; console := console w |}.

(** A socket after a [send] of a frame that returned: the frame is out
    if the socket is open, and nothing has changed if it is not. *)
Definition after_send (frame : JsValue) (ws : WebSocket) : WebSocket :=
  match readyState ws with
  | OPEN => {| url := url ws; readyState := readyState ws;
               sent := sent ws ++ [frame]; listeners := listeners ws |}
  | _ => ws
  end.

(** The world after such a [send] on socket [c]. *)
Definition with_frame (c : nat) (frame : JsValue) (w : World) : World :=
  set_sockets (fun l =>
    match l !! c with
    | Some ws => <[c := after_send frame ws]> l
    | None => l
    end) w.

(** The frame [sendAudioChunk] builds. *)
Definition audio_frame (provider : JSString) (now : float) (audioData : list Z) : JsValue :=
  if str_eqb provider (lit "deepseek")
  then JObject [ (lit "type", JString (lit "audio.chunk"));
                 (lit "audio", JString (base64 audioData));
                 (lit "timestamp", JNumber now) ]
  else JObject [ (lit "type", JString (lit "input_audio_buffer.append"));
                 (lit "audio", JString (base64 audioData)) ].

(** A socket after its [close()]. *)
Definition closing (ws : WebSocket) : WebSocket :=
  match readyState ws with
  | CLOSED => ws
  | _ => set_readyState CLOSING ws
  end.

(** The endpoint of the provider of the manager. *)
Definition endpoint (w : World) : JSString :=
  if str_eqb (provider (this w)) (lit "deepseek")
  then lit "wss://api.deepseek.com/v1/audio/realtime"
  else lit "wss://api.openai.com/v1/audio/realtime".

(** The socket [connectToWebSocket] leaves in the heap. *)
Definition fresh_socket (url : JSString) : WebSocket :=
  {| url := url; readyState := CONNECTING; sent := [];
     listeners := [L_open; L_error; L_close] |}.

Section WithHost.
Context `{Host}.

(** Whether [send] returns on the socket the manager holds. *)
Definition send_ok (w : World) : bool :=
  match wsConnection (this w) with
  | Some c =>
      match sockets w !! c with
      | Some ws => negb (ws_send_throws (readyState ws))
      | None => false
      end
  | None => false
  end.

End WithHost.

(** *** The invariant of the worlds of a manager *)

(** A socket of the manager has the three listeners of
    [connectToWebSocket], then the message listeners that the rounds of
    ['open'] added. *)
Definition good_socket (ws : WebSocket) : Prop :=
  exists n, listeners ws = [L_open; L_error; L_close] ++ replicate n L_message.

(** Nothing has happened yet. *)
Definition pristine (w : World) : Prop :=
  sockets w = [] /\ emitted w = []
  /\ wsConnection (this w) = None /\ isConnected (this w) = false.

(** Every socket is as [connectToWebSocket] and the rounds of ['open']
    leave it, and a manager without a token has done nothing. *)
Definition Inv (w : World) : Prop :=
  Forall good_socket (sockets w)
  /\ (truthy (sessionToken (this w)) = false -> pristine w).

(** The token is as before, and the sockets are still good. *)
Definition steady (w w' : World) : Prop :=
  sessionToken (this w') = sessionToken (this w)
  /\ (Forall good_socket (sockets w) -> Forall good_socket (sockets w')).

End ManagerSpec.

(** ** Worlds and platforms to run the services in *)

Module Scenarios.

Import Manager.

(** The answer of the primary provider to the negotiation. *)
Definition session_response : Outcome JsValue :=
  Normal (JObject [ (lit "client_secret",
                     JObject [ (lit "value", JString (lit "tok123")) ]) ]).

(** The text of a frame, written with ['] where the frame has the
    double quote. *)
Definition frame_text (s : string) : JSString :=
  map (fun c => if (c =? 39)%N then 34%N else c) (lit s).

(** The world after a list of actions. *)
Definition after `{Host} (actions : list Action) (w : World) : World :=
  fold_left (fun w a => perform a w) actions w.

(** A manager that has negotiated, connected, and seen its socket
    open. *)
Definition connected_world : World :=
  after (H := ascii_host)
    [ A_createTranscriptionSession session_response;
      A_connectToWebSocket;
      A_socket 0 Ev_open ]
    (new_manager (lit "sk-test") None).

(** A connected manager that has been told to connect once more: it
    holds the second socket, which is still connecting. *)
Definition reconnecting_world : World :=
  after (H := ascii_host) [ A_connectToWebSocket ] connected_world.

(** A manager that connected twice, was closed, and then saw its first
    socket open. *)
Definition orphan_world : World :=
  after (H := ascii_host)
    [ A_createTranscriptionSession session_response;
      A_connectToWebSocket;
      A_connectToWebSocket;
      A_close;
      A_socket 0 Ev_open ]
    (new_manager (lit "sk-test") None).

(** A connected manager whose socket has reported a failure, and has
    not reported its close yet. *)
Definition failing_world : World :=
  after (H := ascii_host) [ A_socket 0 (Ev_error "ECONNRESET") ] connected_world.

(** A manager that connected twice and saw its second socket open and
    close, and then its first socket open: it holds the second socket,
    which is closed. *)
Definition stale_world : World :=
  after (H := ascii_host)
    [ A_createTranscriptionSession session_response;
      A_connectToWebSocket;
      A_connectToWebSocket;
      A_socket 1 Ev_open;
      A_socket 1 Ev_close;
      A_socket 0 Ev_open ]
    (new_manager (lit "sk-test") None).

Import Capture.

(** A platform with nothing to capture. *)
Definition no_sources : Platform :=
  {| getSources := Normal [];
     getUserMedia := fun _ => Throw "NotFoundError";
     new_AudioContext := fun rate => Normal {| sampleRate := rate |};
     createMediaStreamSource := Normal tt;
     createScriptProcessor := fun _ => Normal tt |}.

(** A platform with one screen. *)
Definition one_screen : Platform :=
  {| getSources := Normal [ {| source_id := lit "screen:0:0" |} ];
     getUserMedia := fun id =>
       Normal {| chromeMediaSourceId := id; tracks_stopped := false |};
     new_AudioContext := fun rate => Normal {| sampleRate := rate |};
     createMediaStreamSource := Normal tt;
     createScriptProcessor := fun _ => Normal tt |}.

End Scenarios.

Module CaptureSpec.

Import Capture.

(** The size of the buffers and the rate of the context, by provider. *)
Definition buffer_size_of (tm : Manager.World) : Z :=
  if str_eqb (Manager.getProvider tm) (lit "deepseek") then 2048 else 4096.

Definition sample_rate_of (tm : Manager.World) : Z :=
  if str_eqb (Manager.getProvider tm) (lit "deepseek") then 16000 else 24000.

(** The fields of a service whose graph is wired. *)
Definition wired (tm : Manager.World) (stream : MediaStream) (ctx : AudioContext)
  : Fields :=
  {| mediaStream := Some stream;
     audioContext := Some ctx;
     sourceNode := Some {| source_connected := true |};
     processorNode := Some {| bufferSize := buffer_size_of tm;
                              onaudioprocess_set := true;
                              processor_connected := true |};
     isCapturing := true |}.

(** A platform with a screen and a stream, but no audio context. *)
Definition no_audio_context : Platform :=
  {| getSources := Normal [ {| source_id := lit "screen:0:0" |} ];
     getUserMedia := fun id =>
       Normal {| chromeMediaSourceId := id; tracks_stopped := false |};
     new_AudioContext := fun _ => Throw "NotSupportedError";
     createMediaStreamSource := Normal tt;
     createScriptProcessor := fun _ => Normal tt |}.

(** A manager of the primary provider, for the service to hold. *)
Definition a_manager : Manager.World :=
  Manager.new_manager (lit "sk-test") None.

(** A service that was started on one screen and stopped. *)
Definition stopped_capture : State :=
  snd (stopCapturing (snd (startCapturing a_manager Scenarios.one_screen new_capture))).

End CaptureSpec.

Module ManagerSpec2.

Import Manager ManagerSpec.

(** The first frame on a connection. *)
Definition auth_frame (token : JsValue) : JsValue :=
  JObject [ (lit "type", JString (lit "auth")); (lit "token", token) ].

(** A socket after the round of ['open'] in which it was the socket the
    manager held: open, authenticated, and listened to for messages. *)
Definition opened (token : JsValue) (ws : WebSocket) : WebSocket :=
  {| url := url ws; readyState := OPEN;
     sent := sent ws ++ [auth_frame token];
     listeners := listeners ws ++ [L_message] |}.

(** A socket after one more frame. *)
Definition written (frame : JsValue) (ws : WebSocket) : WebSocket :=
  {| url := url ws; readyState := readyState ws;
     sent := sent ws ++ [frame]; listeners := listeners ws |}.

(** What a negotiation leaves: a token that counts as obtained and
    [true], or the fields as they were and [false]; never a socket or an
    event. *)
Definition session_outcome (w : World) (r : Outcome bool * World) : Prop :=
  sockets (snd r) = sockets w /\ emitted (snd r) = emitted w
  /\ ((fst r = Normal true
       /\ exists v, truthy v = true
                    /\ this (snd r) = set_sessionToken v (this w))
      \/ (fst r = Normal false /\ this (snd r) = this w)).

(** The handle of the manager refers to a socket of the heap, and every
    socket was made for the endpoint of the provider. *)
Definition handles_valid (w : World) : Prop :=
  (forall c, wsConnection (this w) = Some c -> c < length (sockets w))
  /\ Forall (fun ws => url ws = endpoint w) (sockets w).

(** The key, the provider, the handle and the endpoints of the sockets
    are as before; no socket is gone. *)
Definition same_sockets (w w' : World) : Prop :=
  apiKey (this w') = apiKey (this w)
  /\ provider (this w') = provider (this w)
  /\ wsConnection (this w') = wsConnection (this w)
  /\ map url (sockets w') = map url (sockets w).

(** The fields are as before, and what was emitted is still there. *)
Definition heard (w w' : World) : Prop :=
  this w' = this w /\ exists more, emitted w' = emitted w ++ more.

(** The [type] tags the translators know. *)
Definition openai_types : list string :=
  [ "conversation.item.input_audio_transcription.delta";
    "conversation.item.input_audio_transcription.completed";
    "input_audio_buffer.speech_started";
    "input_audio_buffer.speech_stopped";
    "error" ]%string.

Definition deepseek_types : list string :=
  [ "transcription.partial"; "transcription.final";
    "speech.started"; "speech.stopped"; "error" ]%string.

(** [message.k] for a message that is an object with these fields. *)
Definition field (fields : list (JSString * JsValue)) (k : string) : JsValue :=
  own_property fields (lit k).

(** [message.id || '0']. *)
Definition id_or_zero (fields : list (JSString * JsValue)) : JsValue :=
  or_else (own_property fields (lit "id")) (JString (lit "0")).

(** A manager that says it is connected has emitted [connected]. *)
Definition announced (w : World) : Prop :=
  isConnected (this w) = true -> E_connected ∈ emitted w.

(** A manager of the secondary provider. *)
Definition deepseek_manager : World :=
  new_manager (lit "sk-test") (Some (lit "deepseek")).

(** The answer of the secondary provider to the negotiation. *)
Definition deepseek_response : Outcome JsValue :=
  Normal (JObject [ (lit "session_token", JString (lit "tok456")) ]).

(** A manager that has negotiated and connected; its socket is still
    connecting. *)
Definition connecting_world : World :=
  Scenarios.after (H := ascii_host)
    [ A_createTranscriptionSession Scenarios.session_response;
      A_connectToWebSocket ]
    (new_manager (lit "sk-test") None).

(** A manager that has connected twice; it holds the second socket, and
    both are still connecting. *)
Definition twice_connecting_world : World :=
  Scenarios.after (H := ascii_host) [ A_connectToWebSocket ] connecting_world.

End ManagerSpec2.

Module SpeechSpec.

Import Speech.

(** The service after one more line of the console, and after one more
    call of a callback. *)
Definition logged (line : string) (s : Service) : Service :=
  {| recognition := recognition s; isListening := isListening s;
     isSpeaking := isSpeaking s; options := options s;
     console := console s ++ [line]; calls := calls s |}.

Definition having_called (c : Call) (s : Service) : Service :=
  {| recognition := recognition s; isListening := isListening s;
     isSpeaking := isSpeaking s; options := options s;
     console := console s; calls := calls s ++ [c] |}.

(** Options that ask for a single, final result in French, with a
    callback for the results. *)
Definition one_shot_options : SpeechRecognitionOptions :=
  {| continuous := given false; interimResults := given false;
     lang := given (lit "fr-FR");
     onResult := given 1; onStart := absent; onEnd := absent;
     onError := absent; onSpeechStart := absent; onSpeechEnd := absent |}.

(** A service in a browser with the API, set up with these options. *)
Definition one_shot_service : Service :=
  snd (setup one_shot_options (new_service true)).

End SpeechSpec.

(* ================================================================== *)
(** * Part III.  Theorems                                              *)
(* ================================================================== *)

(** ** The reader of JSON texts *)

Module JsonFacts.

(** Numbers are rounded once, also where the power of ten is not a
    double, in the range of the subnormal numbers, and on a tie. *)
Lemma numbers_are_rounded_once :
  Json.parse (lit "1e-23")
  = Some (JNumber (SF2Prim (S754_finite false 6805647338418769 (-129))))
  /\ Json.parse (lit "1e-320")
     = Some (JNumber (SF2Prim (S754_finite false 2024 (-1074))))
  /\ Json.parse (lit "9007199254740993") = Some (JNumber 9007199254740992)
  /\ Json.parse (lit "-0.5e1") = Some (JNumber (-5)).
Proof. repeat split; vm_compute; reflexivity. Qed.

End JsonFacts.

(** ** QuestionClassifier *)

Module ClassifierFacts.

Import Classifier ClassifierSpec.

Section WithHost.
Context `{Host}.

Lemma matchCount_from lowerText keywords n :
  fold_left
    (fun count keyword => count + (if includes lowerText keyword then 1 else 0))
    keywords n
  = n + length (filter (fun k => includes lowerText k = true) keywords).
Proof.
  revert n. induction keywords as [|k ks IH]; intros n; simpl.
  - lia.
  - rewrite IH, filter_cons. destruct (includes lowerText k) eqn:E.
    + rewrite decide_True by done. simpl. lia.
    + rewrite decide_False by done. lia.
Qed.

(** The inner [reduce] counts the phrases that occur. *)
Lemma matchCount_filter lowerText keywords :
  matchCount lowerText keywords
  = length (filter (fun k => includes lowerText k = true) keywords).
Proof. unfold matchCount. now rewrite matchCount_from. Qed.

Lemma hits_UNKNOWN text : hits text UNKNOWN = 0.
Proof. reflexivity. Qed.

(** A category has no hit exactly when none of its phrases occurs. *)
Lemma hits_zero_iff text c :
  hits text c = 0 <->
  forall k, k ∈ keywordsOf c -> includes (toLowerCase text) k = false.
Proof.
  unfold hits. rewrite length_zero_iff_nil. split.
  - intros Hnil k Hk. destruct (includes (toLowerCase text) k) eqn:E; [|done].
    assert (k ∈ filter (fun k => includes (toLowerCase text) k = true) (keywordsOf c))
      as Hin by (apply list_elem_of_filter; done).
    rewrite Hnil in Hin. inversion Hin.
  - intros Hall.
    destruct (filter _ (keywordsOf c)) as [|k rest] eqn:E; [done|].
    assert (k ∈ k :: rest) as Hin by left.
    rewrite <- E in Hin. apply list_elem_of_filter in Hin as [Hinc Hk].
    rewrite (Hall k Hk) in Hinc. done.
Qed.

(** [quickClassify] in terms of the four counts. *)
Lemma quickClassify_unfold text :
  quickClassify text =
  let b := hits text BEHAVIORAL in
  let s := hits text SYSTEM_DESIGN in
  let o := hits text OBJECT_ORIENTED_DESIGN in
  let c := hits text CODING in
  let best0 := {| type := UNKNOWN; score := 0 |} in
  let best1 := if score best0 <? b then {| type := BEHAVIORAL; score := b |} else best0 in
  let best2 := if score best1 <? s then {| type := SYSTEM_DESIGN; score := s |} else best1 in
  let best3 := if score best2 <? o then {| type := OBJECT_ORIENTED_DESIGN; score := o |} else best2 in
  let best4 := if score best3 <? c then {| type := CODING; score := c |} else best3 in
  if 0 <? score best4 then type best4 else UNKNOWN.
Proof.
  unfold quickClassify, hits, keywordMap, bestOf.
  cbn [map fold_left score type].
  rewrite !matchCount_filter. reflexivity.
Qed.

(** A step of the outer [reduce], by cases on its comparison. *)
Ltac case_ltb x :=
  match goal with
  | |- context [?a <? x] => destruct (Nat.ltb_spec a x); cbn [score type]
  end.

Ltac case_final :=
  match goal with
  | |- context [0 <? ?b] => destruct (Nat.ltb_spec 0 b)
  end.

(** The category that comes first among those with the highest count
    wins, if that count is not zero. *)
Lemma quickClassify_first_best text c :
  0 < hits text c ->
  (forall c', hits text c' <= hits text c) ->
  (forall c', rank c' < rank c -> hits text c' < hits text c) ->
  quickClassify text = c.
Proof.
  intros Hpos Hmax Hfirst. rewrite quickClassify_unfold.
  pose proof (Hmax BEHAVIORAL). pose proof (Hmax SYSTEM_DESIGN).
  pose proof (Hmax OBJECT_ORIENTED_DESIGN). pose proof (Hmax CODING).
  pose proof (Hfirst BEHAVIORAL) as F0. pose proof (Hfirst SYSTEM_DESIGN) as F1.
  pose proof (Hfirst OBJECT_ORIENTED_DESIGN) as F2. pose proof (Hfirst CODING) as F3.
  pose proof (hits_UNKNOWN text).
  cbv zeta; cbn [score type].
  case_ltb (hits text BEHAVIORAL); case_ltb (hits text SYSTEM_DESIGN);
    case_ltb (hits text OBJECT_ORIENTED_DESIGN); case_ltb (hits text CODING);
    case_final;
    destruct c; simpl in F0, F1, F2, F3; try reflexivity; exfalso; lia.
Qed.

(** C2.  For every text: if phrases of only one category occur in the
    lower-cased text, [quickClassify] returns that category; if no
    phrase of any category occurs, it returns [UNKNOWN]; and when two or
    more categories tie, that is, share the highest count of occurring
    phrases, and it is not zero, the result is the first of them in the
    order Behavioral, SystemDesign, ObjectOrientedDesign, Coding. *)
Theorem quickClassify_keyword_scoring text :
  (forall c, 0 < hits text c ->
             (forall c', c' <> c -> hits text c' = 0) ->
             quickClassify text = c)
  /\ ((forall c k, k ∈ keywordsOf c -> includes (toLowerCase text) k = false) ->
      quickClassify text = UNKNOWN)
  /\ (forall c, 0 < hits text c ->
                (forall c', hits text c' <= hits text c) ->
                (forall c', rank c' < rank c -> hits text c' < hits text c) ->
                quickClassify text = c).
Proof.
  split; [|split].
  - intros c Hpos Hothers. apply quickClassify_first_best; [done| |].
    + intros c'. destruct (decide (c' = c)) as [->|Hne]; [done|].
      rewrite (Hothers c' Hne). lia.
    + intros c' Hrank. destruct (decide (c' = c)) as [->|Hne]; [lia|].
      rewrite (Hothers c' Hne). done.
  - intros Hnone. rewrite quickClassify_unfold.
    assert (forall c, hits text c = 0) as Hz
      by (intros c; apply hits_zero_iff; intros k; apply Hnone).
    rewrite !Hz. reflexivity.
  - apply quickClassify_first_best.
Qed.

(** C9.  For every text, [detailedClassify] settles to the category that
    [quickClassify] returns for it. *)
Theorem detailedClassify_is_quickClassify text :
  detailedClassify text = Fulfilled (quickClassify text).
Proof. unfold detailedClassify, settle. reflexivity. Qed.

End WithHost.

(** The tie that the order decides is a tie for the highest count:
    where one Behavioral phrase (conflict) and one SystemDesign phrase
    (scale) occur, and two Coding phrases (implement, function), the
    category with the highest count is returned, Coding. *)
Lemma equal_counts_below_the_best :
  hits (H := ascii_host) (lit "A conflict over scale: implement a function") BEHAVIORAL = 1
  /\ hits (H := ascii_host) (lit "A conflict over scale: implement a function") SYSTEM_DESIGN = 1
  /\ hits (H := ascii_host) (lit "A conflict over scale: implement a function") CODING = 2
  /\ quickClassify (H := ascii_host) (lit "A conflict over scale: implement a function")
     = CODING.
Proof. repeat split; vm_compute; reflexivity. Qed.

(** The three cases of C2 on texts in ASCII: only Behavioral phrases
    occur; none occurs; one Object-Oriented and one Coding phrase
    occur. *)
Lemma quickClassify_keyword_scoring_witness :
  quickClassify (H := ascii_host)
    (lit "Tell me about a time you faced conflict with a teammate") = BEHAVIORAL
  /\ quickClassify (H := ascii_host) (lit "Good morning, shall we begin?") = UNKNOWN
  /\ quickClassify (H := ascii_host) (lit "Implement a design pattern")
     = OBJECT_ORIENTED_DESIGN.
Proof.
  split; [|split].
  - apply (proj1 (@quickClassify_keyword_scoring ascii_host _)).
    + vm_compute. lia.
    + intros [] ?; try congruence; vm_compute; reflexivity.
  - apply (proj1 (proj2 (@quickClassify_keyword_scoring ascii_host _))).
    intros c. apply (@hits_zero_iff ascii_host).
    destruct c; vm_compute; reflexivity.
  - apply (proj2 (proj2 (@quickClassify_keyword_scoring ascii_host _))).
    + vm_compute. lia.
    + intros []; vm_compute; lia.
    + intros []; vm_compute; lia.
Defined.

End ClassifierFacts.

(** ** The PCM conversion *)

Module PcmFacts.

Import Num Capture PcmSpec.

Open Scope float_scope.

(** *** Comparisons of doubles *)

Lemma SFcompare_swap a b :
  SFcompare b a = option_map CompOpp (SFcompare a b).
Proof.
  destruct a as [sa|sa| |sa ma ea], b as [sb|sb| |sb mb eb]; simpl;
    try reflexivity; try (destruct sa; reflexivity);
    try (destruct sb; reflexivity); try (destruct sa, sb; reflexivity).
  destruct sa, sb; simpl; try reflexivity;
    rewrite (Z.compare_antisym ea eb); destruct (ea ?= eb)%Z; simpl;
    try reflexivity;
    change (Pos.compare_cont Eq ma mb) with (Pos.compare ma mb);
    change (Pos.compare_cont Eq mb ma) with (Pos.compare mb ma);
    rewrite (Pos.compare_antisym ma mb); destruct (ma ?= mb)%positive;
    reflexivity.
Qed.

(** [<] is asymmetric. *)
Lemma ltb_asym x y : (x <? y) = true -> (y <? x) = false.
Proof.
  rewrite !ltb_spec. unfold SFltb. rewrite (SFcompare_swap (Prim2SF x)).
  destruct (SFcompare (Prim2SF x) (Prim2SF y)) as [[]|]; simpl; congruence.
Qed.

Lemma is_nan_Prim2SF x : is_nan x = true -> Prim2SF x = S754_nan.
Proof.
  unfold is_nan. rewrite FloatAxioms.eqb_spec. unfold SFeqb.
  destruct (Prim2SF x) as [s|s| |s m e]; simpl; try reflexivity.
  - discriminate.
  - destruct s; discriminate.
  - destruct s; rewrite Z.compare_refl, Pos.compare_cont_refl; discriminate.
Qed.

(** There is one NaN. *)
Lemma is_nan_eq x : is_nan x = true -> x = nan.
Proof. intros Hx. apply Prim2SF_inj. now rewrite is_nan_Prim2SF. Qed.

Lemma ltb_nan_l y : (nan <? y) = false.
Proof. rewrite ltb_spec. reflexivity. Qed.

Lemma ltb_nan_r x : (x <? nan) = false.
Proof.
  rewrite ltb_spec. change (Prim2SF nan) with S754_nan.
  unfold SFltb. destruct (Prim2SF x); reflexivity.
Qed.

(** A number above 1 is not below -1. *)
Lemma above_one_not_below x : (1 <? x) = true -> (x <? -1) = false.
Proof.
  rewrite !ltb_spec.
  change (Prim2SF 1) with (S754_finite false 4503599627370496 (-52)).
  change (Prim2SF (-1)) with (S754_finite true 4503599627370496 (-52)).
  destruct (Prim2SF x) as [s|s| |s m e]; try (destruct s); simpl;
    try reflexivity; try discriminate.
Qed.

(** *** The clamp of the source *)

Lemma Math_min_one x :
  Math_min 1 x = if is_nan x then nan else if 1 <? x then 1 else x.
Proof.
  unfold Math_min. change (is_nan 1) with false. change (get_sign 1) with false.
  simpl. destruct (is_nan x), (1 <? x), (x <? 1); reflexivity.
Qed.

Lemma Math_max_minus_one m :
  Math_max (-1) m =
  if is_nan m then nan
  else if -1 <? m then m else if m <? -1 then -1 else m.
Proof.
  unfold Math_max. change (is_nan (-1)) with false.
  change (get_sign (-1)) with true. reflexivity.
Qed.

(** [Math.max(-1, Math.min(1, x))] clamps [x], NaN included. *)
Lemma max_min_is_clamp x : Math_max (-1) (Math_min 1 x) = clamp x.
Proof.
  rewrite Math_min_one. unfold clamp.
  destruct (is_nan x) eqn:Hnan.
  - rewrite (is_nan_eq x Hnan). reflexivity.
  - destruct (1 <? x) eqn:Hhigh.
    + rewrite (above_one_not_below x Hhigh). reflexivity.
    + rewrite Math_max_minus_one, Hnan.
      destruct (-1 <? x) eqn:Hlow; [|reflexivity].
      now rewrite (ltb_asym _ _ Hlow).
Qed.

(** *** The loop of the source *)

Lemma stored_encode x : stored x = encode x.
Proof. unfold stored, encode, scale. now rewrite max_min_is_clamp. Qed.

(** After [k] rounds the first [k] elements are converted and the others
    are still zero. *)
Lemma convert_loop (l : list float) (k : nat) :
  (k <= length l)%nat ->
  fold_left (convert_at l) (seq 0 k) (replicate (length l) 0%Z)
  = map stored (take k l) ++ replicate (length l - k) 0%Z.
Proof.
  induction k as [|k IH]; intros Hk.
  - simpl. now rewrite Nat.sub_0_r.
  - rewrite seq_S, fold_left_app, IH by lia. simpl.
    destruct (lookup_lt_is_Some_2 l k) as [x Hx]; [lia|].
    unfold convert_at. rewrite (nth_lookup_Some _ _ _ _ Hx).
    fold (stored x).
    rewrite insert_app_r_alt by (rewrite length_map, length_take; lia).
    rewrite length_map, length_take, Nat.min_l, Nat.sub_diag by lia.
    replace (length l - k)%nat with (S (length l - S k)) by lia.
    rewrite (take_S_r _ _ _ Hx), map_app. simpl.
    now rewrite <- app_assoc.
Qed.

Lemma convert_all (l : list float) :
  fold_left (convert_at l) (seq 0 (length l)) (replicate (length l) 0%Z)
  = map stored l.
Proof.
  rewrite convert_loop by lia.
  now rewrite Nat.sub_diag, firstn_all, app_nil_r.
Qed.

(** Every sample above 1.0 is encoded as 1.0 is, and every sample
    below -1.0 as -1.0 is. *)
Lemma encode_above_one x : (1 <? x) = true -> encode x = 32767%Z.
Proof.
  intros Hx. unfold encode, clamp.
  rewrite (above_one_not_below x Hx), Hx. vm_compute. reflexivity.
Qed.

Lemma encode_below_minus_one x : (x <? -1) = true -> encode x = (-32768)%Z.
Proof. intros Hx. unfold encode, clamp. rewrite Hx. vm_compute. reflexivity. Qed.

Close Scope float_scope.

(** A stored element is a signed 16-bit integer, and its bytes are
    bytes. *)
Lemma ToInt16_range x : (-32768 <= ToInt16 x < 32768)%Z.
Proof.
  unfold ToInt16.
  pose proof (Z.mod_pos_bound (truncate x) 65536 eq_refl).
  destruct (Z.leb_spec 32768 (truncate x mod 65536)); lia.
Qed.

Lemma int16_bytes_range v b : b ∈ int16_bytes v -> (0 <= b < 256)%Z.
Proof.
  unfold int16_bytes. rewrite !elem_of_cons, elem_of_nil.
  intros [->|[->|[]]]; apply Z.mod_pos_bound; lia.
Qed.

(** C3.  For every sequence of samples the bytes that [convertToPCM16]
    returns are those of the reference conversion: each sample clamped
    to [-1.0, 1.0], scaled by 32768 if negative and by 32767 otherwise,
    and the signed 16-bit results packed little-endian.  Encoding 1.0
    gives 32767, encoding -1.0 gives -32768, and 2.0 is encoded as 1.0
    is. *)
Theorem convertToPCM16_reference :
  (forall samples, convertToPCM16 samples = pcm_reference samples)
  /\ encode 1 = 32767%Z
  /\ encode (-1) = (-32768)%Z
  /\ convertToPCM16 [2%float] = convertToPCM16 [1%float].
Proof.
  split; [|repeat split; vm_compute; reflexivity].
  intros samples. unfold convertToPCM16, pcm_reference, buffer_bytes.
  rewrite convert_all. induction samples as [|x xs IH]; [reflexivity|].
  cbn [map concat flat_map]. rewrite IH, stored_encode. reflexivity.
Qed.

End PcmFacts.

(** ** What a method keeps

    [keeps R m]: the world [m] leaves is related by [R] to the world it
    started in, whether it returns or throws. *)

Module ManagerFrames.

Import Manager.
Export ManagerSpec.

Section Keeps.
Context (R : World -> World -> Prop) `{!PreOrder R}.

Lemma keeps_ret {A} (a : A) : keeps R (ret a).
Proof. intros w. reflexivity. Qed.

Lemma keeps_throw {A} e : keeps R (@throw World A e).
Proof. intros w. reflexivity. Qed.

Lemma keeps_get : keeps R get.
Proof. intros w. reflexivity. Qed.

Lemma keeps_lift {A} (o : Outcome A) : keeps R (lift o).
Proof. intros w. reflexivity. Qed.

Lemma keeps_getProp v k : keeps R (getProp v k).
Proof. intros w. destruct v; reflexivity. Qed.

Lemma keeps_bind {A B} (m : M World A) (k : A -> M World B) :
  keeps R m -> (forall a, keeps R (k a)) -> keeps R (bind m k).
Proof.
  intros Hm Hk w. unfold bind. specialize (Hm w).
  destruct (m w) as [[a|e] w1]; simpl in *; [|done].
  etransitivity; [exact Hm|apply Hk].
Qed.

Lemma keeps_try_catch {A} (body : M World A) handler :
  keeps R body -> (forall e, keeps R (handler e)) ->
  keeps R (try_catch body handler).
Proof.
  intros Hb Hh w. unfold try_catch. specialize (Hb w).
  destruct (body w) as [[a|e] w1]; simpl in *; [done|].
  etransitivity; [exact Hb|apply Hh].
Qed.

End Keeps.

Lemma keeps_weaken {A} (R R' : World -> World -> Prop) (m : M World A) :
  (forall w w', R w w' -> R' w w') -> keeps R m -> keeps R' m.
Proof. intros Hsub Hm w. apply Hsub, Hm. Qed.

Create HintDb keeps.

(** Breaks a method into the steps that the lemmas in the hint base
    [keeps] speak about. *)
Ltac keeps_steps :=
  repeat first
    [ match goal with |- PreOrder _ => typeclasses eauto end
    | apply keeps_ret | apply keeps_throw | apply keeps_get
    | apply keeps_lift | apply keeps_getProp
    | solve [eauto with keeps]
    | apply keeps_bind; [| |intros ?]
    | apply keeps_try_catch; [| |intros ?]
    | match goal with
      | |- keeps _ (if ?b then _ else _) => destruct b eqn:?
      | |- keeps _ (match ?x with _ => _ end) => destruct x eqn:?
      end ].

End ManagerFrames.

(** ** RealtimeTranscriptionManager: single calls *)

Module ManagerFacts.

Import Manager.
Export ManagerFrames.

(** Unfolds the plumbing of the monad. *)
Ltac eff :=
  cbv beta iota zeta delta
    [bind ret get modify throw try_catch lift emit console_log
     set_this set_sockets update_socket ws_on ws_send ws_close
     new_WebSocket getProp].

Section WithHost.
Context `{Host}.

(** *** sendAudioChunk *)

(** The three ways through [sendAudioChunk]. *)
Lemma sendAudioChunk_cases now audioData w :
  sendAudioChunk now audioData w =
  match wsConnection (this w) with
  | None => (Normal false, w)
  | Some c =>
      if negb (isConnected (this w)) then (Normal false, w)
      else if send_ok w
           then (Normal true,
                 with_frame c (audio_frame (provider (this w)) now audioData) w)
           else (Normal false, with_line "Error sending audio chunk" w)
  end.
Proof.
  unfold sendAudioChunk, send_ok, with_frame, with_line, audio_frame. eff.
  destruct (wsConnection (this w)) as [c|]; [|reflexivity].
  destruct (isConnected (this w)); [|reflexivity]. cbn [negb].
  destruct (sockets w !! c) as [ws|] eqn:Hc; [|reflexivity].
  destruct (ws_send_throws (readyState ws)); cbn [negb]; [reflexivity|].
  unfold after_send.
  destruct (readyState ws) eqn:Hr; cbn [sockets this]; rewrite ?Hc, ?Hr;
    rewrite ?list_insert_id by exact Hc; try reflexivity; now destruct w.
Qed.

(** C10.  For every world and every frame, [sendAudioChunk] leaves the
    fields of the manager as they were: [provider], [apiKey],
    [sessionToken], [wsConnection] and [isConnected] are the same after
    the call as before, whatever it returns. *)
Theorem sendAudioChunk_keeps_fields now audioData w :
  this (snd (sendAudioChunk now audioData w)) = this w.
Proof.
  rewrite sendAudioChunk_cases.
  destruct (wsConnection (this w)); [|reflexivity].
  destruct (negb (isConnected (this w))); [reflexivity|].
  destruct (send_ok w); reflexivity.
Qed.

(** C4, as the code has it.  For every frame, [sendAudioChunk] returns
    [false] and changes nothing, so queues nothing, whenever the flag
    [isConnected] of the manager is false or the manager holds no
    connection handle; it never throws; and when the flag is set and
    [send] throws, it returns [false] and has written no frame.  The
    state of the socket itself is not looked at. *)
Theorem sendAudioChunk_false_unless_connected now audioData w :
  (isConnected (this w) = false \/ wsConnection (this w) = None ->
   sendAudioChunk now audioData w = (Normal false, w))
  /\ (exists b, fst (sendAudioChunk now audioData w) = Normal b)
  /\ (isConnected (this w) = true -> send_ok w = false ->
      fst (sendAudioChunk now audioData w) = Normal false
      /\ sockets (snd (sendAudioChunk now audioData w)) = sockets w).
Proof.
  rewrite sendAudioChunk_cases. split; [|split].
  - intros [Hoff|Hnone].
    + rewrite Hoff. destruct (wsConnection (this w)); reflexivity.
    + rewrite Hnone. reflexivity.
  - destruct (wsConnection (this w)); [|by eexists].
    destruct (negb (isConnected (this w))); [by eexists|].
    destruct (send_ok w); by eexists.
  - intros Hon Hthrows.
    destruct (wsConnection (this w)); [|split; reflexivity].
    rewrite Hon, Hthrows. split; reflexivity.
Qed.

(** *** Inbound messages *)

#[local] Instance quiet_preorder : PreOrder quiet.
Proof.
  split.
  - intros w. split; reflexivity.
  - intros w1 w2 w3 [? ?] [? ?]. split; congruence.
Qed.

Lemma quiet_emit e : keeps quiet (emit e).
Proof. intros w. split; reflexivity. Qed.

Lemma quiet_console_log line : keeps quiet (console_log line).
Proof. intros w. split; reflexivity. Qed.

#[local] Hint Resolve quiet_emit quiet_console_log : keeps.

Lemma quiet_handleOpenAIMessage message : keeps quiet (handleOpenAIMessage message).
Proof. unfold handleOpenAIMessage. keeps_steps. Qed.

Lemma quiet_handleDeepSeekMessage message : keeps quiet (handleDeepSeekMessage message).
Proof. unfold handleDeepSeekMessage. keeps_steps. Qed.

#[local] Hint Resolve quiet_handleOpenAIMessage quiet_handleDeepSeekMessage : keeps.

(** The message listener returns, whatever the frame. *)
Lemma on_message_returns data w : fst (on_message data w) = Normal tt.
Proof.
  unfold on_message, try_catch.
  destruct (bind _ _ w) as [[[]|e] w1]; reflexivity.
Qed.

(** It changes neither the manager nor a socket. *)
Lemma quiet_on_message data : keeps quiet (on_message data).
Proof. unfold on_message. keeps_steps. Qed.

(** On a text that is not JSON it logs one line and does nothing else. *)
Lemma on_message_malformed data w :
  JSON_parse data = None ->
  on_message data w =
  (Normal tt, with_line "Error processing WebSocket message" w).
Proof. intros Hbad. unfold on_message. rewrite Hbad. reflexivity. Qed.

(** A socket that reports a frame stays in the state it is in. *)
Lemma set_readyState_same ws : set_readyState (readyState ws) ws = ws.
Proof. destruct ws; reflexivity. Qed.

(** A round of message listeners on a text that is not JSON: one line
    of the console for each, and nothing else. *)
Lemma run_listeners_malformed data ls w :
  JSON_parse data = None ->
  exists n,
    run_listeners ls (Ev_message data) w =
    (Normal tt,
     {| this := this w; sockets := sockets w; emitted := emitted w;
        console := console w
                   ++ replicate n "Error processing WebSocket message"%string |}).
Proof.
  intros Hbad. revert w. induction ls as [|l ls IH]; intros w.
  - exists 0. simpl. rewrite app_nil_r. now destruct w.
  - simpl. destruct (bool_decide (l = L_message)).
    + unfold bind. cbn [handler]. rewrite (on_message_malformed _ _ Hbad).
      destruct (IH (with_line "Error processing WebSocket message" w)) as [n Hn].
      exists (S n). rewrite Hn. unfold with_line. simpl.
      now rewrite <- app_assoc.
    + apply IH.
Qed.

(** C6.  For every inbound frame whose text is not JSON, the message
    listener returns instead of throwing, leaves the fields of the
    manager ([isConnected] among them) and every socket as they were, and
    emits nothing: it logs the frame and discards it.  The same holds
    for the whole round of listeners when a socket reports the frame. *)
Theorem malformed_message_discarded data w :
  JSON_parse data = None ->
  (fst (on_message data w) = Normal tt
   /\ this (snd (on_message data w)) = this w
   /\ sockets (snd (on_message data w)) = sockets w
   /\ emitted (snd (on_message data w)) = emitted w
   /\ console (snd (on_message data w))
      = console w ++ ["Error processing WebSocket message"%string])
  /\ (forall h,
        fst (deliver h (Ev_message data) w) = Normal tt
        /\ this (snd (deliver h (Ev_message data) w)) = this w
        /\ sockets (snd (deliver h (Ev_message data) w)) = sockets w
        /\ emitted (snd (deliver h (Ev_message data) w)) = emitted w).
Proof.
  intros Hbad. split.
  - rewrite (on_message_malformed _ _ Hbad). repeat split.
  - intros h. unfold deliver. eff.
    destruct (sockets w !! h) as [ws|] eqn:Hh; [|repeat split].
    cbn [state_after sockets]. rewrite Hh.
    rewrite set_readyState_same, list_insert_id by done.
    edestruct (run_listeners_malformed data (listeners ws)) as [n Hn]; [done|].
    rewrite Hn. repeat split.
Qed.

(** *** The transport events *)

Lemma on_error_result e w :
  on_error e w = (Normal tt, with_event (E_error e) (with_line "WebSocket error" w)).
Proof. reflexivity. Qed.

Lemma on_close_result w :
  on_close w =
  (Normal tt, with_event E_disconnected (set_this (set_isConnected false) w)).
Proof. reflexivity. Qed.

(** *** close *)

Lemma close_cases w :
  close w =
  match wsConnection (this w) with
  | Some c =>
      (Normal tt,
       {| this := set_isConnected false (set_wsConnection None (this w));
          sockets := match sockets w !! c with
                     | Some ws => <[c := closing ws]> (sockets w)
                     | None => sockets w
                     end;
          emitted := emitted w; console := console w |})
  | None => (Normal tt, w)
  end.
Proof.
  unfold close. eff. destruct (wsConnection (this w)); reflexivity.
Qed.

(** *** connectToWebSocket *)

Lemma update_last (l : list WebSocket) x f :
  match (l ++ [x]) !! length l with
  | Some ws => <[length l := f ws]> (l ++ [x])
  | None => l ++ [x]
  end = l ++ [f x].
Proof.
  rewrite list_lookup_middle by done.
  rewrite insert_app_r_alt by lia. now rewrite Nat.sub_diag.
Qed.

Lemma connectToWebSocket_cases w :
  connectToWebSocket w =
  if negb (truthy (sessionToken (this w)))
  then (Normal false, with_line "No session token available" w)
  else if ws_rejects_url (endpoint w)
  then (Normal false, with_line "Error connecting to WebSocket" w)
  else (Normal true,
        {| this := set_wsConnection (Some (length (sockets w))) (this w);
           sockets := sockets w ++ [fresh_socket (endpoint w)];
           emitted := emitted w; console := console w |}).
Proof.
  unfold connectToWebSocket, endpoint. eff.
  destruct (negb (truthy (sessionToken (this w)))); [reflexivity|].
  destruct (ws_rejects_url _); [reflexivity|].
  cbn [sockets this]. rewrite !update_last. reflexivity.
Qed.

End WithHost.

End ManagerFacts.

(** ** RealtimeTranscriptionManager: every world it can be in *)

Module ManagerInvariants.

Import Manager ManagerFacts.

#[local] Instance steady_preorder : PreOrder steady.
Proof.
  split.
  - intros w. split; [reflexivity|tauto].
  - intros w1 w2 w3 [? ?] [? ?]. split; [congruence|tauto].
Qed.

Lemma quiet_steady w w' : quiet w w' -> steady w w'.
Proof. intros [Ht Hs]. unfold steady. rewrite Ht, Hs. tauto. Qed.

Lemma good_socket_same_listeners ws ws' :
  listeners ws' = listeners ws -> good_socket ws -> good_socket ws'.
Proof. intros Heq [n Hn]. exists n. congruence. Qed.

Lemma good_socket_more ws ws' :
  listeners ws' = listeners ws ++ [L_message] -> good_socket ws -> good_socket ws'.
Proof.
  intros Heq [n Hn]. exists (S n). rewrite Heq, Hn.
  rewrite <- app_assoc. f_equal.
  change [L_message] with (replicate 1 L_message).
  rewrite <- replicate_add. f_equal. lia.
Qed.

Lemma Forall_good_update (l : list WebSocket) (h : nat) f :
  (forall ws, good_socket ws -> good_socket (f ws)) ->
  Forall good_socket l ->
  Forall good_socket (match l !! h with
                      | Some ws => <[h := f ws]> l
                      | None => l
                      end).
Proof.
  intros Hf Hl. destruct (l !! h) as [ws|] eqn:Hh; [|done].
  apply Forall_insert; [done|]. apply Hf.
  eapply Forall_lookup_1; eassumption.
Qed.

Section WithHost.
Context `{Host}.

Lemma steady_update_socket h f :
  (forall ws, good_socket ws -> good_socket (f ws)) ->
  keeps steady (update_socket h f).
Proof.
  intros Hf w. split; [reflexivity|]. simpl. now apply Forall_good_update.
Qed.

Lemma steady_emit e : keeps steady (emit e).
Proof. intros w. split; [reflexivity|]. simpl. tauto. Qed.

Lemma steady_console_log line : keeps steady (console_log line).
Proof. intros w. split; [reflexivity|]. simpl. tauto. Qed.

Lemma steady_set_isConnected b : keeps steady (modify (set_this (set_isConnected b))).
Proof. intros w. split; [reflexivity|]. simpl. tauto. Qed.

Lemma steady_ws_send c frame : keeps steady (ws_send c frame).
Proof.
  unfold ws_send. keeps_steps.
  apply steady_update_socket. intros ws'.
  now apply good_socket_same_listeners.
Qed.

Lemma steady_ws_on_message c : keeps steady (ws_on c L_message).
Proof.
  apply steady_update_socket. intros ws. now apply good_socket_more.
Qed.

Lemma steady_on_message data : keeps steady (on_message data).
Proof.
  eapply keeps_weaken; [apply quiet_steady|apply quiet_on_message].
Qed.

#[local] Hint Resolve steady_emit steady_console_log steady_set_isConnected
  steady_ws_send steady_ws_on_message steady_on_message : keeps.

Lemma steady_handler ev : keeps steady (handler ev).
Proof.
  destruct ev; cbn [handler];
    unfold on_open, on_error, on_close, setupWebSocketListeners;
    keeps_steps.
Qed.

Lemma steady_run_listeners ls ev : keeps steady (run_listeners ls ev).
Proof.
  induction ls as [|l ls IH]; cbn [run_listeners]; [keeps_steps|].
  destruct (bool_decide _); [|exact IH].
  apply keeps_bind; [typeclasses eauto|apply steady_handler|].
  intros _. exact IH.
Qed.

Lemma steady_deliver h ev : keeps steady (deliver h ev).
Proof.
  pose proof steady_run_listeners.
  unfold deliver. keeps_steps.
  apply steady_update_socket. intros ws'.
  now apply good_socket_same_listeners.
Qed.

(** *** Session negotiation *)

Lemma negotiated_refl w : negotiated w w.
Proof. repeat split; auto. Qed.

Lemma negotiated_line line w : negotiated w (with_line line w).
Proof. repeat split; auto. Qed.

Lemma negotiated_token v w :
  truthy v = true -> negotiated w (set_this (set_sessionToken v) w).
Proof. intros Hv. repeat split; auto. Qed.

Lemma createOpenAISession_negotiated response w :
  negotiated w (snd (createOpenAISession response w)).
Proof.
  unfold createOpenAISession. eff.
  destruct response as [data|e]; [|apply negotiated_line].
  destruct data as [| | | | | |fields]; try apply negotiated_line.
  destruct (own_property fields (lit "client_secret")) as [| |[]| | | |secret] eqn:Hcs;
    cbn [truthy]; try apply negotiated_line;
    try (destruct (negb _) eqn:Hcase; cbn; rewrite ?Hcase; apply negotiated_line).
  destruct (truthy (own_property secret (lit "value"))) eqn:Hv;
    [now apply negotiated_token|apply negotiated_line].
Qed.

Lemma createDeepSeekSession_negotiated response w :
  negotiated w (snd (createDeepSeekSession response w)).
Proof.
  unfold createDeepSeekSession. eff.
  destruct response as [data|e]; [|apply negotiated_line].
  destruct data as [| | | | | |fields]; try apply negotiated_line.
  destruct (truthy (own_property fields (lit "session_token"))) eqn:Hv;
    [now apply negotiated_token|apply negotiated_line].
Qed.

Lemma createTranscriptionSession_negotiated response w :
  negotiated w (snd (createTranscriptionSession response w)).
Proof.
  unfold createTranscriptionSession, bind, get.
  destruct (str_eqb _ _);
    [apply createDeepSeekSession_negotiated|apply createOpenAISession_negotiated].
Qed.

(** *** The invariant *)

Lemma Inv_new apiKey provider : Inv (new_manager apiKey provider).
Proof. split; [constructor|]. intros _. repeat split. Qed.

Lemma Inv_perform a w : Inv w -> enabled a w = true -> Inv (perform a w).
Proof.
  intros [Hgood Hfresh] Hen. destruct a as [response| |now audioData| |h ev];
    cbn [perform].
  - destruct (createTranscriptionSession_negotiated response w)
      as (Hs & He & Hc & Hi & Ht).
    split; [now rewrite Hs|]. intros Hno.
    destruct Ht as [Ht|Ht]; [|congruence].
    rewrite Ht in Hno. destruct (Hfresh Hno) as (? & ? & ? & ?).
    unfold pristine. rewrite Hs, He, Hc, Hi. auto.
  - rewrite connectToWebSocket_cases.
    destruct (truthy (sessionToken (this w))) eqn:Ht; cbn [negb snd].
    + destruct (ws_rejects_url _); cbn [snd]; (split; [|cbn; congruence]).
      * exact Hgood.
      * cbn. apply Forall_app. split; [exact Hgood|].
        constructor; [|constructor]. now exists 0.
    + split; [exact Hgood|]. intros _. exact (Hfresh eq_refl).
  - rewrite sendAudioChunk_cases.
    destruct (wsConnection (this w)) as [c|] eqn:Hc; [|now split].
    destruct (negb (isConnected (this w))); [now split|].
    destruct (send_ok w); cbn [snd].
    + split.
      * cbn. apply Forall_good_update; [|exact Hgood].
        intros ws. apply good_socket_same_listeners.
        unfold after_send. now destruct (readyState ws).
      * intros Hno. destruct (Hfresh Hno) as (? & ? & ? & ?). congruence.
    + split; [exact Hgood|].
      intros Hno. destruct (Hfresh Hno) as (? & ? & ? & ?). congruence.
  - rewrite close_cases.
    destruct (wsConnection (this w)) as [c|] eqn:Hc; [|now split].
    cbn [snd]. split.
    + cbn. apply Forall_good_update; [|exact Hgood].
      intros ws. apply good_socket_same_listeners.
      unfold closing. now destruct (readyState ws).
    + intros Hno. destruct (Hfresh Hno) as (? & ? & ? & ?). congruence.
  - destruct (steady_deliver h ev w) as [Ht Hg].
    split; [now apply Hg|]. rewrite Ht. intros Hno.
    destruct (Hfresh Hno) as (Hs & _). cbn in Hen. rewrite Hs in Hen.
    discriminate.
Qed.

(** Every world of a manager satisfies the invariant. *)
Lemma reachable_Inv w : reachable w -> Inv w.
Proof.
  induction 1 as [apiKey provider|w a _ IH Hen];
    [apply Inv_new|now apply Inv_perform].
Qed.

(** A run from a world of a manager ends in one. *)
Lemma run_reachable actions w w' :
  reachable w -> run actions w = Some w' -> reachable w'.
Proof.
  revert w. induction actions as [|a rest IH]; intros w Hw; cbn [run].
  - intros [= <-]. exact Hw.
  - destruct (enabled a w) eqn:Hen; [|discriminate].
    apply IH. now constructor.
Qed.

End WithHost.

End ManagerInvariants.

(** ** RealtimeTranscriptionManager: the properties of the specification *)

Module ManagerClaims.

Import Manager ManagerFacts ManagerInvariants Scenarios.

(** *** The worlds of the scenarios are worlds of a manager *)

Lemma after_reachable `{Host} actions w :
  reachable w -> run actions w = Some (after actions w) ->
  reachable (after actions w).
Proof. intros Hw Hrun. eapply run_reachable; eassumption. Qed.

Lemma connected_world_reachable : reachable (H := ascii_host) connected_world.
Proof.
  apply (after_reachable (H := ascii_host)); [constructor|].
  vm_compute. reflexivity.
Qed.

Lemma reconnecting_world_reachable : reachable (H := ascii_host) reconnecting_world.
Proof.
  apply (after_reachable (H := ascii_host));
    [apply connected_world_reachable|].
  vm_compute. reflexivity.
Qed.

Lemma orphan_world_reachable : reachable (H := ascii_host) orphan_world.
Proof.
  apply (after_reachable (H := ascii_host)); [constructor|].
  vm_compute. reflexivity.
Qed.

Section WithHost.
Context `{Host}.

(** Message listeners do not hear the other events. *)
Lemma run_listeners_skip n ev w :
  listener_of ev <> L_message ->
  run_listeners (replicate n L_message) ev w = (Normal tt, w).
Proof.
  intros Hev. induction n as [|n IH]; [reflexivity|].
  cbn [replicate run_listeners].
  rewrite bool_decide_false by congruence. exact IH.
Qed.


(** C5.  In every world in which no session token is held (the field is
    [null], or any value that counts as false), [connectToWebSocket]
    returns [false], creates no socket, leaves the fields of the manager
    as they were and emits nothing; and a manager that has never held a
    token has no socket and has emitted no event, [connected] or
    other. *)
Theorem connect_requires_token w :
  truthy (sessionToken (this w)) = false ->
  (fst (connectToWebSocket w) = Normal false
   /\ this (snd (connectToWebSocket w)) = this w
   /\ sockets (snd (connectToWebSocket w)) = sockets w
   /\ emitted (snd (connectToWebSocket w)) = emitted w)
  /\ (reachable w -> sockets w = [] /\ E_connected ∉ emitted w).
Proof.
  intros Hno. split.
  - rewrite connectToWebSocket_cases, Hno. repeat split.
  - intros Hreach. destruct (reachable_Inv w Hreach) as [_ Hfresh].
    destruct (Hfresh Hno) as (Hs & He & _). rewrite He.
    split; [exact Hs|]. apply not_elem_of_nil.
Qed.

(** What [close] does in every world: it returns and leaves no
    connection handle; when the manager held one, that socket has had
    its [close()], no other socket is touched, and [isConnected] is
    false; when it held none, nothing changes at all.  A second [close]
    changes nothing. *)
Theorem close_is_idempotent w :
  fst (close w) = Normal tt
  /\ close (snd (close w)) = (Normal tt, snd (close w))
  /\ wsConnection (this (snd (close w))) = None
  /\ (forall c, wsConnection (this w) = Some c ->
        isConnected (this (snd (close w))) = false
        /\ (forall ws, sockets w !! c = Some ws ->
              sockets (snd (close w)) !! c = Some (closing ws))
        /\ (forall h, h <> c -> sockets (snd (close w)) !! h = sockets w !! h))
  /\ (wsConnection (this w) = None -> snd (close w) = w).
Proof.
  rewrite !close_cases.
  destruct (wsConnection (this w)) as [c|] eqn:Hc; cbn [fst snd this wsConnection set_isConnected set_wsConnection].
  - split; [reflexivity|]. split; [reflexivity|]. split; [reflexivity|].
    split; [|discriminate].
    intros c' [= <-]. split; [reflexivity|]. split.
    + intros ws Hws. cbn [sockets]. rewrite Hws.
      apply list_lookup_insert_eq. now apply lookup_lt_Some in Hws.
    + intros h Hne. cbn [sockets].
      destruct (sockets w !! c); [|reflexivity].
      now apply list_lookup_insert_ne.
  - rewrite Hc. repeat split; discriminate.
Qed.

(** Where a connected manager always holds a handle, [close] leaves it
    not connected. *)
Lemma close_clears_consistent_state w :
  (isConnected (this w) = true -> wsConnection (this w) <> None) ->
  isConnected (this (snd (close w))) = false.
Proof.
  intros Hheld. rewrite close_cases.
  destruct (wsConnection (this w)) as [c|]; [reflexivity|].
  cbn [snd]. destruct (isConnected (this w)); [|reflexivity].
  now destruct Hheld.
Qed.

End WithHost.

(** *** The properties on the worlds above *)

(** The manager on the scenarios of the specification: after the
    negotiation and the open of its socket it holds the token, is
    connected and has emitted [connected]; a completed transcription of
    the primary provider comes out as the event with the same text, item
    and index. *)
Lemma scenario_connected :
  sessionToken (this connected_world) = JString (lit "tok123")
  /\ isActive connected_world = true
  /\ emitted connected_world = [E_connected].
Proof. repeat split; vm_compute; reflexivity. Qed.

Lemma scenario_completed :
  emitted (snd (deliver (H := ascii_host) 0
    (Ev_message (frame_text
       "{'type':'conversation.item.input_audio_transcription.completed', 'transcript':'what is a hash table', 'item_id':'a1', 'content_index':0}"))
    connected_world))
  = [ E_connected;
      E_transcription_completed (JString (lit "what is a hash table"))
        (JString (lit "a1")) (JNumber 0) ].
Proof. vm_compute. reflexivity. Qed.

(** A frame of audio sent by a connected manager goes out on its socket,
    in the envelope of the primary provider, after the authentication
    frame. *)
Lemma scenario_audio_sent :
  fst (sendAudioChunk (H := ascii_host) 0 [1; 2; 3]%Z connected_world) = Normal true
  /\ sent <$> sockets (snd (sendAudioChunk (H := ascii_host) 0 [1; 2; 3]%Z
                              connected_world)) !! 0
     = Some [ JObject [ (lit "type", JString (lit "auth"));
                        (lit "token", JString (lit "tok123")) ];
              JObject [ (lit "type", JString (lit "input_audio_buffer.append"));
                        (lit "audio", JString (lit "AQID")) ] ].
Proof. split; vm_compute; reflexivity. Qed.



(** C4 as stated fails: a manager can be without an open, authenticated
    connection and still return [true].  After its only socket has
    reported a failure the socket is closing, [isConnected] is still
    set, and [sendAudioChunk] returns [true] though no frame goes out;
    and a manager that holds a closed socket, with [isConnected] set by
    the open of a socket it let go of (on which nothing was ever
    written), returns [true] as well. *)
Lemma sendAudioChunk_true_without_open_connection :
  (reachable (H := ascii_host) failing_world
   /\ wsConnection (this failing_world) = Some 0
   /\ readyState <$> sockets failing_world = [CLOSING]
   /\ sendAudioChunk (H := ascii_host) 0 [1; 2; 3]%Z failing_world
      = (Normal true, failing_world))
  /\ (reachable (H := ascii_host) stale_world
      /\ wsConnection (this stale_world) = Some 1
      /\ readyState <$> sockets stale_world = [OPEN; CLOSED]
      /\ sent <$> sockets stale_world
         = [ []; [ JObject [ (lit "type", JString (lit "auth"));
                             (lit "token", JString (lit "tok123")) ] ] ]
      /\ sendAudioChunk (H := ascii_host) 0 [1; 2; 3]%Z stale_world
         = (Normal true, stale_world)).
Proof.
  split; (split; [|repeat split; vm_compute; reflexivity]).
  - apply (after_reachable (H := ascii_host));
      [apply connected_world_reachable|]. vm_compute. reflexivity.
  - apply (after_reachable (H := ascii_host)); [constructor|].
    vm_compute. reflexivity.
Qed.

(** The amended C4 on a manager that was never connected, and on one
    that is connected but holds a socket on which [send] throws. *)
Lemma sendAudioChunk_false_unless_connected_witness :
  sendAudioChunk (H := ascii_host) 0 [1; 2; 3]%Z (new_manager (lit "sk-test") None)
  = (Normal false, new_manager (lit "sk-test") None)
  /\ fst (sendAudioChunk (H := ascii_host) 0 [1; 2; 3]%Z reconnecting_world)
     = Normal false.
Proof.
  split.
  - apply (proj1 (sendAudioChunk_false_unless_connected (H := ascii_host) _ _ _)).
    left. reflexivity.
  - apply (proj2 (proj2 (sendAudioChunk_false_unless_connected
                           (H := ascii_host) _ _ _)));
      vm_compute; reflexivity.
Defined.

(** C5 on a manager that has just been constructed. *)
Lemma connect_requires_token_witness :
  fst (connectToWebSocket (H := ascii_host) (new_manager (lit "sk-test") None))
  = Normal false
  /\ sockets (snd (connectToWebSocket (H := ascii_host)
                     (new_manager (lit "sk-test") None))) = [].
Proof.
  destruct (connect_requires_token (H := ascii_host)
              (new_manager (lit "sk-test") None) eq_refl)
    as [(Hret & _ & Hsockets & _) _].
  split; [exact Hret|exact Hsockets].
Defined.

(** C6 on a connected manager that receives a frame that is not JSON. *)
Lemma malformed_message_discarded_witness :
  fst (on_message (H := ascii_host) (lit "not json") connected_world) = Normal tt
  /\ isActive (snd (on_message (H := ascii_host) (lit "not json") connected_world))
     = true.
Proof.
  destruct (malformed_message_discarded (H := ascii_host)
              (lit "not json") connected_world
              ltac:(vm_compute; reflexivity))
    as [(Hret & Hthis & _) _].
  split; [exact Hret|]. unfold isActive. rewrite Hthis.
  vm_compute. reflexivity.
Defined.

(** C7.  [close] does not clear the connection state in every state.
    A manager that connected twice, was closed, and then saw its first
    socket open is connected without a handle: [connectToWebSocket] let
    go of the first socket without closing it, and the listener of its
    open set [isConnected] after the [close].  A [close] in that world
    finds no handle, and so neither closes the open socket nor resets
    [isConnected], though the reset is what its body is written to do. *)
Lemma close_leaves_orphan_connected :
  reachable (H := ascii_host) orphan_world
  /\ wsConnection (this orphan_world) = None
  /\ isActive orphan_world = true
  /\ isActive (snd (close orphan_world)) = true
  /\ readyState <$> sockets (snd (close orphan_world)) !! 0 = Some OPEN.
Proof.
  split; [apply orphan_world_reachable|].
  repeat split; vm_compute; reflexivity.
Qed.

(** [close] on a connected manager and on a new one. *)
Lemma close_is_idempotent_witness :
  isActive (snd (close connected_world)) = false
  /\ snd (close (new_manager (lit "sk-test") None))
     = new_manager (lit "sk-test") None.
Proof.
  split.
  - apply (proj1 (proj2 (proj2 (proj2 (close_is_idempotent connected_world)))) 0
             ltac:(vm_compute; reflexivity)).
  - apply (proj2 (proj2 (proj2 (proj2
             (close_is_idempotent (new_manager (lit "sk-test") None))))));
      reflexivity.
Defined.

End ManagerClaims.

(** ** SystemAudioCapture *)

Module CaptureClaims.

Import Capture Scenarios.

(** C8.  When [startCapturing] is called on a service that is not
    capturing (only then does it enumerate the sources) and the
    enumeration returns no source, it returns [false], sets no field, and
    [isActive] is still false. *)
Theorem startCapturing_no_sources tm p s :
  isCapturing (this s) = false ->
  getSources p = Normal [] ->
  fst (startCapturing tm p s) = Normal false
  /\ this (snd (startCapturing tm p s)) = this s
  /\ isActive (snd (startCapturing tm p s)) = false.
Proof.
  intros Hidle Hnone. unfold startCapturing, isActive.
  cbv beta iota zeta delta [bind get try_catch lift ret console_log modify].
  rewrite Hidle, Hnone. repeat split. exact Hidle.
Qed.

Lemma startCapturing_no_sources_witness :
  fst (startCapturing (Manager.new_manager (lit "sk-test") None)
         no_sources new_capture) = Normal false
  /\ isActive (snd (startCapturing (Manager.new_manager (lit "sk-test") None)
                      no_sources new_capture)) = false.
Proof.
  destruct (startCapturing_no_sources
              (Manager.new_manager (lit "sk-test") None)
              no_sources new_capture eq_refl eq_refl)
    as (Hret & _ & Hactive).
  split; [exact Hret|exact Hactive].
Defined.

(** With a source, a stream and a context the capture does start. *)
Lemma startCapturing_one_screen :
  fst (startCapturing (Manager.new_manager (lit "sk-test") None)
         one_screen new_capture) = Normal true
  /\ isActive (snd (startCapturing (Manager.new_manager (lit "sk-test") None)
                      one_screen new_capture)) = true.
Proof. split; vm_compute; reflexivity. Qed.

End CaptureClaims.

(** ** SystemAudioCapture: the other paths *)

Module CaptureFacts.

Import Num Capture Scenarios CaptureSpec.

(** Unfolds the plumbing of the monad and the setters. *)
Ltac run_capture :=
  cbv beta iota zeta delta
    [startCapturing stopCapturing initialize isActive
     bind ret get modify throw try_catch lift console_log set_this
     set_mediaStream set_audioContext set_sourceNode set_processorNode
     set_isCapturing];
  cbn [this isCapturing mediaStream audioContext sourceNode processorNode
       fst snd negb].

(** Cases on what the platform answers, one call at a time. *)
Ltac platform_cases :=
  repeat match goal with
         | |- context [match getSources ?p with _ => _ end] =>
             destruct (getSources p) as [[|? ?]|?] eqn:?; run_capture
         | |- context [match getUserMedia ?p ?i with _ => _ end] =>
             destruct (getUserMedia p i) eqn:?; run_capture
         | |- context [match new_AudioContext ?p ?r with _ => _ end] =>
             destruct (new_AudioContext p r) eqn:?; run_capture
         | |- context [match createMediaStreamSource ?p with _ => _ end] =>
             destruct (createMediaStreamSource p) eqn:?; run_capture
         | |- context [match createScriptProcessor ?p ?n with _ => _ end] =>
             destruct (createScriptProcessor p n) eqn:?; run_capture
         end.

(** X1.  [startCapturing] never throws, whatever the platform does, and
    what it returns is what [isActive] says afterwards. *)
Theorem startCapturing_returns_isActive tm p s :
  fst (startCapturing tm p s) = Normal (isActive (snd (startCapturing tm p s))).
Proof.
  destruct s as [[ms ctx sn pn cap] con]. run_capture.
  destruct cap; [reflexivity|]. run_capture.
  platform_cases; try reflexivity;
    destruct ctx; run_capture; platform_cases; reflexivity.
Qed.

(** X2.  When a service that is not capturing starts, the whole graph is
    wired: it holds the stream of the first source, a context (the one it
    had, or a new one at the rate of the provider), a connected source
    node, and a connected processor with its callback and the buffer size
    of the provider. *)
Theorem startCapturing_wires_the_graph tm p s :
  isCapturing (this s) = false ->
  fst (startCapturing tm p s) = Normal true ->
  exists first rest stream ctx,
    getSources p = Normal (first :: rest)
    /\ getUserMedia p (source_id first) = Normal stream
    /\ (audioContext (this s) = Some ctx
        \/ (audioContext (this s) = None
            /\ new_AudioContext p (sample_rate_of tm) = Normal ctx))
    /\ this (snd (startCapturing tm p s)) = wired tm stream ctx.
Proof.
  destruct s as [[ms ctx sn pn cap] con]. cbn [this isCapturing].
  intros ->. unfold wired, buffer_size_of, sample_rate_of. run_capture.
  platform_cases; try discriminate;
    destruct ctx as [ctx|]; run_capture; platform_cases; try discriminate;
    intros _; do 4 eexists; (split; [reflexivity|]); (split; [eassumption|]);
    (split; [|reflexivity]);
    first [left; reflexivity|right; split; reflexivity].
Qed.

Lemma startCapturing_wires_the_graph_witness :
  exists stream ctx,
    this (snd (startCapturing a_manager one_screen new_capture))
    = wired a_manager stream ctx.
Proof.
  destruct (startCapturing_wires_the_graph a_manager one_screen new_capture
              eq_refl ltac:(vm_compute; reflexivity))
    as (first & rest & stream & ctx & _ & _ & _ & Hfields).
  exists stream, ctx. exact Hfields.
Defined.

(** X3.  When the stream is acquired but no audio context can be made,
    [startCapturing] returns [false] with the stream left in
    [mediaStream]; the service is not capturing, so a [stopCapturing]
    that follows changes nothing and the stream is not released. *)
Theorem startCapturing_keeps_stream_on_failure tm p s first rest stream e :
  isCapturing (this s) = false ->
  audioContext (this s) = None ->
  getSources p = Normal (first :: rest) ->
  getUserMedia p (source_id first) = Normal stream ->
  new_AudioContext p (sample_rate_of tm) = Throw e ->
  fst (startCapturing tm p s) = Normal false
  /\ mediaStream (this (snd (startCapturing tm p s))) = Some stream
  /\ isActive (snd (startCapturing tm p s)) = false
  /\ snd (stopCapturing (snd (startCapturing tm p s)))
     = snd (startCapturing tm p s).
Proof.
  destruct s as [[ms ctx sn pn cap] con]. cbn [this isCapturing audioContext].
  intros -> -> Hsources Hstream Hctx. unfold sample_rate_of in Hctx.
  run_capture. rewrite Hsources. run_capture. rewrite Hstream. run_capture.
  rewrite Hctx. run_capture. repeat split.
Qed.

Lemma startCapturing_keeps_stream_on_failure_witness :
  fst (startCapturing a_manager no_audio_context new_capture) = Normal false
  /\ mediaStream (this (snd (startCapturing a_manager no_audio_context new_capture)))
     = Some {| chromeMediaSourceId := lit "screen:0:0"; tracks_stopped := false |}.
Proof.
  destruct (startCapturing_keeps_stream_on_failure
              a_manager no_audio_context new_capture
              {| source_id := lit "screen:0:0" |} []
              {| chromeMediaSourceId := lit "screen:0:0"; tracks_stopped := false |}
              "NotSupportedError" eq_refl eq_refl eq_refl eq_refl eq_refl)
    as (Hret & Hstream & _).
  split; [exact Hret|exact Hstream].
Defined.

(** X4.  [stopCapturing] returns in every state and leaves the service
    not capturing; a second call changes nothing; on a service that is
    not capturing it changes nothing at all; on one that is, it drops
    the stream and the source node, drops the processor node only if
    there is a context, and keeps the context. *)
Theorem stopCapturing_releases s :
  fst (stopCapturing s) = Normal tt
  /\ isActive (snd (stopCapturing s)) = false
  /\ stopCapturing (snd (stopCapturing s)) = (Normal tt, snd (stopCapturing s))
  /\ audioContext (this (snd (stopCapturing s))) = audioContext (this s)
  /\ (isCapturing (this s) = false -> snd (stopCapturing s) = s)
  /\ (isCapturing (this s) = true ->
      mediaStream (this (snd (stopCapturing s))) = None
      /\ sourceNode (this (snd (stopCapturing s))) = None
      /\ processorNode (this (snd (stopCapturing s)))
         = match audioContext (this s) with
           | Some _ => None
           | None => processorNode (this s)
           end).
Proof.
  destruct s as [[ms ctx sn pn cap] con]. run_capture.
  destruct cap; run_capture.
  - destruct ms, pn, ctx, sn; run_capture; repeat split; discriminate.
  - repeat split; discriminate.
Qed.

Lemma stopCapturing_releases_witness :
  mediaStream (this (snd (stopCapturing
     (snd (startCapturing a_manager one_screen new_capture))))) = None
  /\ snd (stopCapturing new_capture) = new_capture.
Proof.
  split.
  - apply (proj2 (proj2 (proj2 (proj2 (proj2 (stopCapturing_releases _)))))).
    vm_compute. reflexivity.
  - apply (proj1 (proj2 (proj2 (proj2 (proj2 (stopCapturing_releases _)))))).
    reflexivity.
Defined.

(** X5.  A context the service holds is never replaced or dropped by
    [startCapturing] or [stopCapturing]: a service that is started again
    reuses the context, and the sample rate, of its first start. *)
Theorem audioContext_is_kept tm p s ctx :
  audioContext (this s) = Some ctx ->
  audioContext (this (snd (startCapturing tm p s))) = Some ctx
  /\ audioContext (this (snd (stopCapturing s))) = Some ctx.
Proof.
  destruct s as [[ms c sn pn cap] con]. cbn [this audioContext].
  intros ->. split.
  - run_capture. destruct cap; [reflexivity|]. run_capture.
    platform_cases; reflexivity.
  - run_capture. destruct cap; [|reflexivity]. run_capture.
    destruct ms, pn, sn; reflexivity.
Qed.

Lemma audioContext_is_kept_witness :
  audioContext (this (snd (startCapturing a_manager no_audio_context stopped_capture)))
  = Some {| sampleRate := 24000 |}.
Proof.
  apply (proj1 (audioContext_is_kept a_manager no_audio_context stopped_capture
                  {| sampleRate := 24000 |} ltac:(vm_compute; reflexivity))).
Defined.

(** X6.  [initialize] never throws.  If the constructor of the context
    returns, at the rate of the provider (16000 for deepseek, 24000
    otherwise), [initialize] returns [true] and holds that context, in
    place of any it held; if the constructor throws, it returns [false]
    and no field changes. *)
Theorem initialize_by_provider tm p s :
  (forall ctx, new_AudioContext p (sample_rate_of tm) = Normal ctx ->
     fst (initialize tm p s) = Normal true
     /\ this (snd (initialize tm p s)) = set_audioContext (Some ctx) (this s))
  /\ (forall e, new_AudioContext p (sample_rate_of tm) = Throw e ->
       fst (initialize tm p s) = Normal false
       /\ this (snd (initialize tm p s)) = this s)
  /\ (exists b, fst (initialize tm p s) = Normal b).
Proof.
  unfold sample_rate_of. run_capture.
  destruct (new_AudioContext p _) as [ctx|e]; run_capture;
    (split; [|split]); try (intros ? [= <-]); try discriminate;
    try (split; reflexivity); eexists; reflexivity.
Qed.

Lemma initialize_by_provider_witness :
  fst (initialize a_manager one_screen new_capture) = Normal true
  /\ fst (initialize a_manager no_audio_context new_capture) = Normal false.
Proof.
  split.
  - apply (proj1 (initialize_by_provider a_manager one_screen new_capture)
             {| sampleRate := 24000 |} eq_refl).
  - apply (proj1 (proj2 (initialize_by_provider a_manager no_audio_context
                           new_capture)) "NotSupportedError"%string eq_refl).
Defined.

End CaptureFacts.

(** ** convertToPCM16: the shape of the frames *)

Module PcmFrames.

Import Num Capture PcmFacts.

Lemma buffer_bytes_length (a : list Z) : length (buffer_bytes a) = 2 * length a.
Proof.
  unfold buffer_bytes. induction a as [|v a IH]; [reflexivity|].
  cbn [map concat]. rewrite length_app, IH. cbn [int16_bytes length]. lia.
Qed.

Lemma buffer_bytes_range (a : list Z) :
  Forall (fun b => (0 <= b < 256)%Z) (buffer_bytes a).
Proof.
  unfold buffer_bytes. induction a as [|v a IH]; [constructor|].
  cbn [map concat]. apply Forall_app. split; [|exact IH].
  apply Forall_forall. intros b Hb. now apply (int16_bytes_range v).
Qed.

(** X7.  A frame has two bytes for each sample, and each of them is a
    byte, whatever the samples are (NaN and the infinities included). *)
Theorem convertToPCM16_frame_shape (samples : list float) :
  length (convertToPCM16 samples) = 2 * length samples
  /\ Forall (fun b => (0 <= b < 256)%Z) (convertToPCM16 samples).
Proof.
  unfold convertToPCM16. rewrite convert_all. split.
  - now rewrite buffer_bytes_length, length_map.
  - apply buffer_bytes_range.
Qed.

(** X8.  The conversion works sample by sample: the frame of two buffers
    put end to end is the frame of the first followed by the frame of the
    second, so where the processor cuts its buffers does not change the
    bytes that go out. *)
Theorem convertToPCM16_app (first second : list float) :
  convertToPCM16 (first ++ second)
  = convertToPCM16 first ++ convertToPCM16 second.
Proof.
  unfold convertToPCM16, buffer_bytes. rewrite !convert_all.
  now rewrite !map_app, concat_app.
Qed.

End PcmFrames.

(** ** RealtimeTranscriptionManager: negotiation, connection, frames *)

Module ManagerMore.

Import Manager ManagerSpec ManagerSpec2 ManagerFacts ManagerInvariants Scenarios.

Lemma session_outcome_line w b line :
  b = false -> session_outcome w (Normal b, with_line line w).
Proof. intros ->. repeat split. right. split; reflexivity. Qed.

Lemma session_outcome_token w v :
  truthy v = true ->
  session_outcome w (Normal true, set_this (set_sessionToken v) w).
Proof. intros Hv. repeat split. left. split; [reflexivity|]. now exists v. Qed.

Section WithHost.
Context `{Host}.

Lemma createOpenAISession_outcome response w :
  session_outcome w (createOpenAISession response w).
Proof.
  unfold createOpenAISession. eff.
  destruct response as [data|e]; [|now apply session_outcome_line].
  destruct data as [| | | | | |fields]; try now apply session_outcome_line.
  destruct (own_property fields (lit "client_secret")) as [| |[]| | | |secret] eqn:Hcs;
    cbn [truthy]; try now apply session_outcome_line.
  - destruct (negb _) eqn:Hcase; cbn; rewrite ?Hcase;
      now apply session_outcome_line.
  - destruct (negb _) eqn:Hcase; cbn; rewrite ?Hcase;
      now apply session_outcome_line.
  - destruct (truthy (own_property secret (lit "value"))) eqn:Hv;
      [now apply session_outcome_token|now apply session_outcome_line].
Qed.

Lemma createDeepSeekSession_outcome response w :
  session_outcome w (createDeepSeekSession response w).
Proof.
  unfold createDeepSeekSession. eff.
  destruct response as [data|e]; [|now apply session_outcome_line].
  destruct data as [| | | | | |fields]; try now apply session_outcome_line.
  destruct (truthy (own_property fields (lit "session_token"))) eqn:Hv;
    [now apply session_outcome_token|now apply session_outcome_line].
Qed.

(** X9.  [createTranscriptionSession] never throws, whatever the answer
    of the provider (a body of any shape, or a failed request): either it
    returns [true] and has stored a token that counts as obtained, or it
    returns [false] and no field has changed.  It creates no socket and
    emits no event. *)
Theorem createTranscriptionSession_outcome response w :
  session_outcome w (createTranscriptionSession response w).
Proof.
  unfold createTranscriptionSession, bind, get.
  destruct (str_eqb _ _);
    [apply createDeepSeekSession_outcome|apply createOpenAISession_outcome].
Qed.

(** X10.  The token is read where the provider puts it: for the
    secondary provider it is the [session_token] of the body; for any
    other provider it is the [value] of the [client_secret] of the body.
    If that value counts as true, the call returns [true] and holds
    it. *)
Theorem negotiation_reads_the_token_field w fields :
  (str_eqb (provider (this w)) (lit "deepseek") = true ->
   truthy (own_property fields (lit "session_token")) = true ->
   createTranscriptionSession (Normal (JObject fields)) w
   = (Normal true,
      set_this (set_sessionToken (own_property fields (lit "session_token"))) w))
  /\ (forall secret,
        str_eqb (provider (this w)) (lit "deepseek") = false ->
        own_property fields (lit "client_secret") = JObject secret ->
        truthy (own_property secret (lit "value")) = true ->
        createTranscriptionSession (Normal (JObject fields)) w
        = (Normal true,
           set_this (set_sessionToken (own_property secret (lit "value"))) w)).
Proof.
  split.
  - intros Hp Hv. unfold createTranscriptionSession, bind, get. rewrite Hp.
    unfold createDeepSeekSession. eff. rewrite Hv. reflexivity.
  - intros secret Hp Hcs Hv. unfold createTranscriptionSession, bind, get.
    rewrite Hp. unfold createOpenAISession. eff. rewrite Hcs. cbn [truthy].
    rewrite Hv. reflexivity.
Qed.

End WithHost.

Lemma negotiation_reads_the_token_field_witness :
  sessionToken (this (snd (createTranscriptionSession
     deepseek_response deepseek_manager))) = JString (lit "tok456")
  /\ sessionToken (this (snd (createTranscriptionSession
        session_response (new_manager (lit "sk-test") None))))
     = JString (lit "tok123").
Proof.
  unfold deepseek_response, session_response. split.
  - rewrite (proj1 (negotiation_reads_the_token_field deepseek_manager
       [ (lit "session_token", JString (lit "tok456")) ]) eq_refl eq_refl).
    reflexivity.
  - rewrite (proj2 (negotiation_reads_the_token_field
       (new_manager (lit "sk-test") None)
       [ (lit "client_secret", JObject [ (lit "value", JString (lit "tok123")) ]) ])
       [ (lit "value", JString (lit "tok123")) ] eq_refl eq_refl eq_refl).
    reflexivity.
Defined.

Section WithHost.
Context `{Host}.

(** X11.  With a token and an endpoint the library accepts,
    [connectToWebSocket] returns [true] at once: it has added one socket,
    still connecting, for the endpoint of the provider, with the three
    listeners and nothing written, and holds it.  The sockets it had
    are as they were (a socket it held before is not closed),
    [isConnected] keeps its value and nothing is emitted.  If the library
    rejects the endpoint it returns [false] and only logs. *)
Theorem connectToWebSocket_adds_a_socket w :
  truthy (sessionToken (this w)) = true ->
  (ws_rejects_url (endpoint w) = false ->
   fst (connectToWebSocket w) = Normal true
   /\ sockets (snd (connectToWebSocket w))
      = sockets w ++ [fresh_socket (endpoint w)]
   /\ this (snd (connectToWebSocket w))
      = set_wsConnection (Some (length (sockets w))) (this w)
   /\ isActive (snd (connectToWebSocket w)) = isActive w
   /\ emitted (snd (connectToWebSocket w)) = emitted w)
  /\ (ws_rejects_url (endpoint w) = true ->
      connectToWebSocket w
      = (Normal false, with_line "Error connecting to WebSocket" w)).
Proof.
  intros Htoken. rewrite connectToWebSocket_cases, Htoken. cbn [negb].
  split; intros ->; [repeat split|reflexivity].
Qed.

(** The round of ['open'], by what the manager holds. *)
Lemma on_open_cases w :
  on_open w =
  match wsConnection (this w) with
  | None =>
      (Normal tt, with_event E_connected (set_this (set_isConnected true) w))
  | Some c =>
      match sockets w !! c with
      | None => (Throw "TypeError", w)
      | Some wc =>
          if ws_send_throws (readyState wc)
          then (Throw "WebSocket is not open", w)
          else (Normal tt,
                {| this := set_isConnected true (this w);
                   sockets := <[c := after_send (auth_frame (sessionToken (this w)))
                                       {| url := url wc; readyState := readyState wc;
                                          sent := sent wc;
                                          listeners := listeners wc ++ [L_message] |}]>
                                (sockets w);
                   emitted := emitted w ++ [E_connected];
                   console := console w |})
      end
  end.
Proof.
  unfold on_open, setupWebSocketListeners, with_event, after_send, auth_frame. eff.
  destruct (wsConnection (this w)) as [c|] eqn:Hc.
  - destruct (sockets w !! c) as [wc|] eqn:Hwc; [|now destruct w].
    destruct (ws_send_throws (readyState wc)); [now destruct w|].
    pose proof (lookup_lt_Some _ _ _ Hwc) as Hlt.
    destruct (readyState wc) eqn:Hr;
      repeat (cbn [this sockets wsConnection set_isConnected emitted console
                   url readyState sent listeners];
              rewrite ?Hc, ?Hwc, ?Hr, ?list_lookup_insert_eq by exact Hlt);
      rewrite ?list_insert_insert_eq; reflexivity.
  - cbn [this sockets wsConnection set_isConnected emitted console].
    rewrite Hc. reflexivity.
Qed.

(** A socket of a manager that reports anything but a frame: it moves
    to its next state, and the one listener for the event runs. *)
Lemma deliver_lifecycle w h ws ev :
  reachable w ->
  sockets w !! h = Some ws ->
  listener_of ev <> L_message ->
  deliver h ev w
  = let (o, w') :=
      handler ev (set_sockets
                    (fun l => <[h := set_readyState (state_after ev (readyState ws)) ws]> l)
                    w) in
    (match o with Normal _ => Normal tt | Throw e => Throw e end, w').
Proof.
  intros Hreach Hh Hev.
  destruct (reachable_Inv w Hreach) as [Hgood _].
  destruct (Forall_lookup_1 _ _ _ _ Hgood Hh) as [n Hn].
  unfold deliver. eff. rewrite Hh, Hn. unfold set_sockets.
  destruct ev; try (now destruct Hev); cbn [app run_listeners listener_of];
    repeat match goal with
           | |- context [bool_decide (?a = ?b)] =>
               first [ rewrite (bool_decide_true (a = b)) by reflexivity
                     | rewrite (bool_decide_false (a = b)) by discriminate ]
           end;
    unfold bind; cbn beta; rewrite ?Hh;
    match goal with
    | |- context [handler ?e ?x] => destruct (handler e x) as [[[]|err] w']
    end;
    rewrite ?ManagerClaims.run_listeners_skip by discriminate; reflexivity.
Qed.

(** X12.  When the socket the manager holds opens, and [send] works on
    an open socket, the manager writes one authentication frame with its
    token on that socket, registers one message listener on it, becomes
    connected and emits [connected]; no other socket changes. *)
Theorem open_authenticates w c ws :
  reachable w ->
  wsConnection (this w) = Some c ->
  sockets w !! c = Some ws ->
  ws_send_throws OPEN = false ->
  fst (deliver c Ev_open w) = Normal tt
  /\ this (snd (deliver c Ev_open w)) = set_isConnected true (this w)
  /\ sockets (snd (deliver c Ev_open w))
     = <[c := opened (sessionToken (this w)) ws]> (sockets w)
  /\ emitted (snd (deliver c Ev_open w)) = emitted w ++ [E_connected].
Proof.
  intros Hreach Hc Hws Hsend.
  rewrite (deliver_lifecycle w c ws Ev_open Hreach Hws) by discriminate.
  cbn [handler state_after]. rewrite on_open_cases.
  cbn [this sockets set_sockets]. rewrite Hc.
  pose proof (lookup_lt_Some _ _ _ Hws) as Hlt.
  rewrite list_lookup_insert_eq by exact Hlt.
  cbn [readyState set_readyState]. rewrite Hsend.
  cbn [fst snd this sockets emitted]. rewrite list_insert_insert_eq.
  repeat split.
Qed.

(** X13.  When a socket opens that the manager no longer holds: if the
    manager holds no socket at all, nothing is written and no listener
    is registered, and yet the manager becomes connected and emits
    [connected]; if it holds another socket on which [send] throws, the
    round ends there, and the manager is as before and emits nothing. *)
Theorem open_of_a_socket_not_held w h ws :
  reachable w ->
  sockets w !! h = Some ws ->
  (wsConnection (this w) = None ->
   fst (deliver h Ev_open w) = Normal tt
   /\ isActive (snd (deliver h Ev_open w)) = true
   /\ emitted (snd (deliver h Ev_open w)) = emitted w ++ [E_connected]
   /\ sockets (snd (deliver h Ev_open w)) = <[h := set_readyState OPEN ws]> (sockets w))
  /\ (forall c wc,
        wsConnection (this w) = Some c -> c <> h ->
        sockets w !! c = Some wc ->
        ws_send_throws (readyState wc) = true ->
        fst (deliver h Ev_open w) = Throw "WebSocket is not open"
        /\ this (snd (deliver h Ev_open w)) = this w
        /\ emitted (snd (deliver h Ev_open w)) = emitted w).
Proof.
  intros Hreach Hws.
  rewrite (deliver_lifecycle w h ws Ev_open Hreach Hws) by discriminate.
  cbn [handler state_after]. rewrite on_open_cases.
  cbn [this sockets set_sockets]. split.
  - intros ->. repeat split.
  - intros c wc -> Hne Hwc Hthrows.
    rewrite list_lookup_insert_ne by congruence.
    rewrite Hwc, Hthrows. repeat split.
Qed.

End WithHost.

Lemma connecting_world_reachable : reachable (H := ascii_host) connecting_world.
Proof.
  apply (ManagerClaims.after_reachable (H := ascii_host)); [constructor|].
  vm_compute. reflexivity.
Qed.

Lemma twice_connecting_world_reachable :
  reachable (H := ascii_host) twice_connecting_world.
Proof.
  apply (ManagerClaims.after_reachable (H := ascii_host));
    [apply connecting_world_reachable|].
  vm_compute. reflexivity.
Qed.

Lemma connectToWebSocket_adds_a_socket_witness :
  fst (connectToWebSocket (H := ascii_host) connected_world) = Normal true
  /\ isActive (snd (connectToWebSocket (H := ascii_host) connected_world)) = true.
Proof.
  destruct (proj1 (connectToWebSocket_adds_a_socket (H := ascii_host)
                     connected_world ltac:(vm_compute; reflexivity)) eq_refl)
    as (Hret & _ & _ & Hactive & _).
  split; [exact Hret|]. rewrite Hactive. vm_compute. reflexivity.
Defined.

Lemma open_authenticates_witness :
  isActive (snd (deliver (H := ascii_host) 0 Ev_open connecting_world)) = true
  /\ emitted (snd (deliver (H := ascii_host) 0 Ev_open connecting_world))
     = [E_connected].
Proof.
  destruct (open_authenticates (H := ascii_host) connecting_world 0
              (fresh_socket (lit "wss://api.openai.com/v1/audio/realtime"))
              connecting_world_reachable
              ltac:(vm_compute; reflexivity) ltac:(vm_compute; reflexivity)
              eq_refl)
    as (_ & Hthis & _ & Hemitted).
  split; [unfold isActive; rewrite Hthis; reflexivity|exact Hemitted].
Defined.

Lemma open_of_a_socket_not_held_witness :
  isActive (snd (deliver (H := ascii_host) 0 Ev_open
                   (snd (close twice_connecting_world)))) = true
  /\ isActive (snd (deliver (H := ascii_host) 0 Ev_open twice_connecting_world))
     = false.
Proof.
  split.
  - apply (proj1 (open_of_a_socket_not_held (H := ascii_host)
       (snd (close twice_connecting_world)) 0
       (fresh_socket (lit "wss://api.openai.com/v1/audio/realtime"))
       (reachable_step (H := ascii_host) twice_connecting_world A_close
          twice_connecting_world_reachable eq_refl)
       ltac:(vm_compute; reflexivity)) ltac:(vm_compute; reflexivity)).
  - destruct (proj2 (open_of_a_socket_not_held (H := ascii_host)
       twice_connecting_world 0
       (fresh_socket (lit "wss://api.openai.com/v1/audio/realtime"))
       twice_connecting_world_reachable ltac:(vm_compute; reflexivity))
       1 (fresh_socket (lit "wss://api.openai.com/v1/audio/realtime"))
       ltac:(vm_compute; reflexivity) ltac:(discriminate)
       ltac:(vm_compute; reflexivity) ltac:(vm_compute; reflexivity))
      as (_ & Hthis & _).
    unfold isActive. rewrite Hthis. vm_compute. reflexivity.
Defined.

(** *** Frames out and frames in *)

Section WithHost.
Context `{Host}.

(** X14.  When the manager is connected, the socket it holds is open
    and [send] works on an open socket, [sendAudioChunk] returns [true]
    and has written exactly one frame, on that socket: the envelope of
    the provider around the base64 text of the bytes.  No other socket
    changes, and nothing is emitted or logged. *)
Theorem sendAudioChunk_writes_one_frame now audioData w c ws :
  isConnected (this w) = true ->
  wsConnection (this w) = Some c ->
  sockets w !! c = Some ws ->
  readyState ws = OPEN ->
  ws_send_throws OPEN = false ->
  sendAudioChunk now audioData w
  = (Normal true,
     set_sockets
       (fun l => <[c := written (audio_frame (provider (this w)) now audioData) ws]> l)
       w).
Proof.
  intros Hon Hc Hws Hopen Hsend. rewrite sendAudioChunk_cases, Hc, Hon.
  cbn [negb]. unfold send_ok. rewrite Hc, Hws, Hopen, Hsend. cbn [negb].
  unfold with_frame, set_sockets, after_send, written.
  now rewrite Hws, Hopen.
Qed.

(** X15.  The message listener returns for every frame, valid or not,
    and changes neither a field of the manager nor a socket: no frame
    from the provider can disconnect the manager or close the
    connection. *)
Theorem message_listener_is_harmless data w :
  fst (on_message data w) = Normal tt
  /\ this (snd (on_message data w)) = this w
  /\ sockets (snd (on_message data w)) = sockets w.
Proof.
  split; [apply on_message_returns|]. apply (quiet_on_message data w).
Qed.

Lemma existsb_is_case_false ty labels label :
  existsb (is_case ty) labels = false -> In label labels ->
  is_case ty label = false.
Proof.
  intros Hnone Hin. destruct (is_case ty label) eqn:Hcase; [|reflexivity].
  assert (existsb (is_case ty) labels = true) as Hsome
    by (apply existsb_exists; eauto).
  congruence.
Qed.

(** X16.  A message whose [type] is none of the five tags of the
    provider is logged and nothing else: no event is emitted and nothing
    changes. *)
Theorem unknown_type_is_only_logged data fields w :
  JSON_parse data = Some (JObject fields) ->
  (str_eqb (provider (this w)) (lit "deepseek") = false ->
   existsb (is_case (own_property fields (lit "type"))) openai_types = false ->
   on_message data w = (Normal tt, with_line "OpenAI WebSocket message" w))
  /\ (str_eqb (provider (this w)) (lit "deepseek") = true ->
      existsb (is_case (own_property fields (lit "type"))) deepseek_types = false ->
      on_message data w = (Normal tt, with_line "DeepSeek WebSocket message" w)).
Proof.
  intros Hparse. unfold on_message. rewrite Hparse. split; intros Hp Hnone.
  - unfold try_catch, bind, get, ret. rewrite Hp.
    unfold handleOpenAIMessage. eff.
    rewrite !(existsb_is_case_false _ _ _ Hnone) by (cbn; tauto).
    reflexivity.
  - unfold try_catch, bind, get, ret. rewrite Hp.
    unfold handleDeepSeekMessage. eff.
    rewrite !(existsb_is_case_false _ _ _ Hnone) by (cbn; tauto).
    reflexivity.
Qed.

(** Decides the cases of a [switch] on a tag that is known. *)
Ltac decide_cases :=
  repeat match goal with
         | |- context [is_case (JString (lit ?a)) ?b] =>
             let v := eval vm_compute in (is_case (JString (lit a)) b) in
             change (is_case (JString (lit a)) b) with v
         end;
  cbv iota.

(** Opens the message listener on a frame that parses to an object. *)
Ltac open_message Hparse Hp Hty :=
  unfold on_message; rewrite Hparse;
  unfold try_catch, bind, get, ret; rewrite Hp;
  unfold handleOpenAIMessage, handleDeepSeekMessage; eff;
  rewrite Hty; decide_cases.

(** X17.  The translator of the primary provider: each of its five
    message types gives exactly one event, with the fields of the
    message under the names of the event ([delta] or [transcript] as
    [text], [item_id] as [itemId], [content_index] as [contentIndex],
    [audio_start_ms] and [audio_end_ms] as the offsets); a field the
    message lacks is [undefined] in the event.  Nothing else changes but
    a line of the console for an error. *)
Theorem openai_messages_are_translated data fields w :
  JSON_parse data = Some (JObject fields) ->
  str_eqb (provider (this w)) (lit "deepseek") = false ->
  (field fields "type" = JString (lit "conversation.item.input_audio_transcription.delta") ->
   on_message data w
   = (Normal tt,
      with_event (E_transcription_delta (field fields "delta") (field fields "item_id")
                    (field fields "content_index")) w))
  /\ (field fields "type"
      = JString (lit "conversation.item.input_audio_transcription.completed") ->
      on_message data w
      = (Normal tt,
         with_event (E_transcription_completed (field fields "transcript")
                       (field fields "item_id") (field fields "content_index")) w))
  /\ (field fields "type" = JString (lit "input_audio_buffer.speech_started") ->
      on_message data w
      = (Normal tt,
         with_event (E_speech_started (field fields "audio_start_ms") (field fields "item_id")) w))
  /\ (field fields "type" = JString (lit "input_audio_buffer.speech_stopped") ->
      on_message data w
      = (Normal tt,
         with_event (E_speech_stopped (field fields "audio_end_ms") (field fields "item_id")) w))
  /\ (field fields "type" = JString (lit "error") ->
      on_message data w
      = (Normal tt,
         with_event (E_api_error (field fields "error")) (with_line "API error" w))).
Proof.
  intros Hparse Hp. unfold field.
  repeat split; intros Hty; open_message Hparse Hp Hty; reflexivity.
Qed.

(** X18.  The translator of the secondary provider: each of its five
    message types gives exactly one event; the item of the event is the
    [id] of the message, or ['0'] when the message has none (or one that
    counts as false), and the content index is always 0. *)
Theorem deepseek_messages_are_translated data fields w :
  JSON_parse data = Some (JObject fields) ->
  str_eqb (provider (this w)) (lit "deepseek") = true ->
  (field fields "type" = JString (lit "transcription.partial") ->
   on_message data w
   = (Normal tt,
      with_event (E_transcription_delta (field fields "text") (id_or_zero fields)
                    (JNumber 0)) w))
  /\ (field fields "type" = JString (lit "transcription.final") ->
      on_message data w
      = (Normal tt,
         with_event (E_transcription_completed (field fields "text") (id_or_zero fields)
                       (JNumber 0)) w))
  /\ (field fields "type" = JString (lit "speech.started") ->
      on_message data w
      = (Normal tt,
         with_event (E_speech_started (field fields "timestamp") (id_or_zero fields)) w))
  /\ (field fields "type" = JString (lit "speech.stopped") ->
      on_message data w
      = (Normal tt,
         with_event (E_speech_stopped (field fields "timestamp") (id_or_zero fields)) w))
  /\ (field fields "type" = JString (lit "error") ->
      on_message data w
      = (Normal tt,
         with_event (E_api_error (field fields "error"))
           (with_line "DeepSeek API error" w))).
Proof.
  intros Hparse Hp. unfold field.
  repeat split; intros Hty; open_message Hparse Hp Hty; reflexivity.
Qed.

End WithHost.

Lemma sendAudioChunk_writes_one_frame_witness :
  fst (sendAudioChunk (H := ascii_host) 0 [1; 2; 3]%Z connected_world) = Normal true.
Proof.
  rewrite (sendAudioChunk_writes_one_frame (H := ascii_host)
             0 [1; 2; 3]%Z connected_world 0
             (opened (JString (lit "tok123"))
                (fresh_socket (lit "wss://api.openai.com/v1/audio/realtime")))
             ltac:(vm_compute; reflexivity) ltac:(vm_compute; reflexivity)
             ltac:(vm_compute; reflexivity) eq_refl eq_refl).
  reflexivity.
Defined.

Lemma unknown_type_is_only_logged_witness :
  emitted (snd (on_message (H := ascii_host)
                  (frame_text "{'type':'session.created'}") connected_world))
  = [E_connected].
Proof.
  rewrite (proj1 (unknown_type_is_only_logged (H := ascii_host)
             (frame_text "{'type':'session.created'}")
             [ (lit "type", JString (lit "session.created")) ]
             connected_world ltac:(vm_compute; reflexivity))
             ltac:(vm_compute; reflexivity) ltac:(vm_compute; reflexivity)).
  vm_compute. reflexivity.
Defined.

Lemma openai_messages_are_translated_witness :
  emitted (snd (on_message (H := ascii_host)
     (frame_text "{'type':'input_audio_buffer.speech_started', 'item_id':'a1'}")
     connected_world))
  = [ E_connected; E_speech_started JUndefined (JString (lit "a1")) ].
Proof.
  rewrite (proj1 (proj2 (proj2 (openai_messages_are_translated (H := ascii_host)
             (frame_text "{'type':'input_audio_buffer.speech_started', 'item_id':'a1'}")
             [ (lit "type", JString (lit "input_audio_buffer.speech_started"));
               (lit "item_id", JString (lit "a1")) ]
             connected_world ltac:(vm_compute; reflexivity)
             ltac:(vm_compute; reflexivity))))
             ltac:(vm_compute; reflexivity)).
  vm_compute. reflexivity.
Defined.

Lemma deepseek_messages_are_translated_witness :
  emitted (snd (on_message (H := ascii_host)
     (frame_text "{'type':'transcription.final', 'text':'hello'}")
     deepseek_manager))
  = [ E_transcription_completed (JString (lit "hello")) (JString (lit "0"))
        (JNumber 0) ].
Proof.
  rewrite (proj1 (proj2 (deepseek_messages_are_translated (H := ascii_host)
             (frame_text "{'type':'transcription.final', 'text':'hello'}")
             [ (lit "type", JString (lit "transcription.final"));
               (lit "text", JString (lit "hello")) ]
             deepseek_manager ltac:(vm_compute; reflexivity)
             ltac:(vm_compute; reflexivity)))
             ltac:(vm_compute; reflexivity)).
  vm_compute. reflexivity.
Defined.

(** *** What holds in every world, continued *)

#[local] Instance same_sockets_preorder : PreOrder same_sockets.
Proof.
  split.
  - intros w. repeat split.
  - intros w1 w2 w3 (? & ? & ? & ?) (? & ? & ? & ?). repeat split; congruence.
Qed.

#[local] Instance heard_preorder : PreOrder heard.
Proof.
  split.
  - intros w. split; [reflexivity|]. exists []. now rewrite app_nil_r.
  - intros w1 w2 w3 [? [m1 ?]] [? [m2 ?]]. split; [congruence|].
    exists (m1 ++ m2). rewrite app_assoc. congruence.
Qed.

Lemma quiet_same_sockets w w' : quiet w w' -> same_sockets w w'.
Proof. intros [Ht Hs]. unfold same_sockets. now rewrite Ht, Hs. Qed.

Lemma map_url_update (l : list WebSocket) (h : nat) f :
  (forall ws, url (f ws) = url ws) ->
  map url (match l !! h with
           | Some ws => <[h := f ws]> l
           | None => l
           end) = map url l.
Proof.
  intros Hf. destruct (l !! h) as [ws|] eqn:Hh; [|reflexivity].
  change (map url) with (fmap (M := list) url).
  rewrite list_fmap_insert, Hf. apply list_insert_id.
  now rewrite list_lookup_fmap, Hh.
Qed.

Section WithHost.
Context `{Host}.

Lemma same_sockets_update_socket h f :
  (forall ws, url (f ws) = url ws) -> keeps same_sockets (update_socket h f).
Proof.
  intros Hf w. repeat split. cbn. now apply map_url_update.
Qed.

Lemma same_sockets_emit e : keeps same_sockets (emit e).
Proof. intros w. repeat split. Qed.

Lemma same_sockets_console_log line : keeps same_sockets (console_log line).
Proof. intros w. repeat split. Qed.

Lemma same_sockets_set_isConnected b :
  keeps same_sockets (modify (set_this (set_isConnected b))).
Proof. intros w. repeat split. Qed.

Lemma same_sockets_ws_send c frame : keeps same_sockets (ws_send c frame).
Proof.
  unfold ws_send. keeps_steps. apply same_sockets_update_socket. reflexivity.
Qed.

Lemma same_sockets_ws_on c name : keeps same_sockets (ws_on c name).
Proof. apply same_sockets_update_socket. reflexivity. Qed.

Lemma same_sockets_on_message data : keeps same_sockets (on_message data).
Proof.
  eapply keeps_weaken; [apply quiet_same_sockets|apply quiet_on_message].
Qed.

#[local] Hint Resolve same_sockets_emit same_sockets_console_log
  same_sockets_set_isConnected same_sockets_ws_send same_sockets_ws_on
  same_sockets_on_message : keeps.

Lemma same_sockets_handler ev : keeps same_sockets (handler ev).
Proof.
  destruct ev; cbn [handler];
    unfold on_open, on_error, on_close, setupWebSocketListeners;
    keeps_steps.
Qed.

Lemma same_sockets_run_listeners ls ev : keeps same_sockets (run_listeners ls ev).
Proof.
  induction ls as [|l ls IH]; cbn [run_listeners]; [keeps_steps|].
  destruct (bool_decide _); [|exact IH].
  apply keeps_bind; [typeclasses eauto|apply same_sockets_handler|].
  intros _. exact IH.
Qed.

Lemma same_sockets_deliver h ev : keeps same_sockets (deliver h ev).
Proof.
  pose proof same_sockets_run_listeners.
  unfold deliver. keeps_steps.
  apply same_sockets_update_socket. intros ws'. now destruct ws'.
Qed.

Lemma createTranscriptionSession_fields response w :
  session_outcome w (createTranscriptionSession response w).
Proof.
  unfold createTranscriptionSession, bind, get.
  destruct (str_eqb (provider (this w)) (lit "deepseek")).
  - apply createDeepSeekSession_outcome.
  - apply createOpenAISession_outcome.
Qed.

(** The key and the provider after one action. *)
Lemma perform_identity a w :
  apiKey (this (perform a w)) = apiKey (this w)
  /\ provider (this (perform a w)) = provider (this w).
Proof.
  destruct a as [response| |now audioData| |h ev]; cbn [perform].
  - destruct (createTranscriptionSession_fields response w)
      as (_ & _ & [(_ & v & _ & ->)|(_ & ->)]); split; reflexivity.
  - rewrite connectToWebSocket_cases.
    destruct (negb _); [split; reflexivity|].
    destruct (ws_rejects_url _); split; reflexivity.
  - rewrite sendAudioChunk_cases.
    destruct (wsConnection (this w)); [|split; reflexivity].
    destruct (negb _); [split; reflexivity|].
    destruct (send_ok w); split; reflexivity.
  - rewrite close_cases. destruct (wsConnection (this w)); split; reflexivity.
  - destruct (same_sockets_deliver h ev w) as (? & ? & _). now split.
Qed.

(** X19.  The key and the provider of a manager never change: after any
    calls of its methods and any events of its sockets, [getProvider]
    returns the provider it was constructed with. *)
Theorem provider_is_fixed actions w :
  getProvider (after actions w) = getProvider w
  /\ apiKey (this (after actions w)) = apiKey (this w).
Proof.
  unfold after, getProvider. revert w.
  induction actions as [|a rest IH]; intros w; [split; reflexivity|].
  cbn [fold_left]. destruct (IH (perform a w)) as [Hp Hk].
  destruct (perform_identity a w) as [Hk' Hp']. split; congruence.
Qed.

Lemma endpoint_provider w w' :
  provider (this w') = provider (this w) -> endpoint w' = endpoint w.
Proof. unfold endpoint. now intros ->. Qed.

Lemma handles_valid_same_sockets w w' :
  same_sockets w w' -> handles_valid w -> handles_valid w'.
Proof.
  intros (_ & Hp & Hc & Hu) [Hlt Hurl]. split.
  - intros c. rewrite Hc. intros Hheld.
    rewrite <- (length_map url), Hu, length_map. now apply Hlt.
  - rewrite (endpoint_provider w w' Hp).
    apply (proj1 (Forall_fmap url (fun u => u = endpoint w) (sockets w'))).
    change (fmap url (sockets w')) with (map url (sockets w')). rewrite Hu.
    now apply (Forall_fmap url (fun u => u = endpoint w)).
Qed.

Lemma handles_valid_perform a w :
  handles_valid w -> handles_valid (perform a w).
Proof.
  intros Hv. destruct a as [response| |now audioData| |h ev]; cbn [perform].
  - apply (handles_valid_same_sockets w); [|exact Hv].
    destruct (createTranscriptionSession_fields response w)
      as (Hs & _ & [(_ & v & _ & Ht)|(_ & Ht)]);
      unfold same_sockets; rewrite Hs, Ht; repeat split.
  - rewrite connectToWebSocket_cases.
    destruct (negb _); [exact Hv|].
    destruct (ws_rejects_url _); [exact Hv|].
    destruct Hv as [Hlt Hurl]. split.
    + cbn. intros c [= <-]. rewrite length_app. cbn. lia.
    + cbn [snd sockets]. apply Forall_app. split; [exact Hurl|].
      constructor; [reflexivity|constructor].
  - apply (handles_valid_same_sockets w); [|exact Hv].
    rewrite sendAudioChunk_cases.
    destruct (wsConnection (this w)) as [c|]; [|repeat split].
    destruct (negb _); [repeat split|].
    destruct (send_ok w); [|repeat split].
    repeat split. cbn. apply map_url_update.
    intros ws. unfold after_send. now destruct (readyState ws).
  - rewrite close_cases.
    destruct (wsConnection (this w)) as [c|]; [|exact Hv].
    destruct Hv as [Hlt Hurl]. split; [discriminate|].
    cbn [snd sockets].
    apply (proj1 (Forall_fmap url (fun u => u = endpoint w) _)).
    change (fmap (M := list) url) with (map url).
    rewrite (map_url_update (sockets w) c closing).
    + now apply (Forall_fmap url (fun u => u = endpoint w)).
    + intros ws. unfold closing. now destruct (readyState ws).
  - apply (handles_valid_same_sockets w); [|exact Hv].
    apply same_sockets_deliver.
Qed.

(** X20.  In every world of a manager, the handle it holds refers to a
    socket it has created, and that socket was made for the endpoint of
    its provider: [sendAudioChunk] and [close] never meet a handle that
    dangles. *)
Theorem handle_refers_to_a_socket w c :
  reachable w ->
  wsConnection (this w) = Some c ->
  exists ws, sockets w !! c = Some ws /\ url ws = endpoint w.
Proof.
  intros Hreach Hc.
  assert (handles_valid w) as [Hlt Hurl].
  { clear Hc. induction Hreach as [apiKey provider|w a _ IH _].
    - split; [discriminate|constructor].
    - now apply handles_valid_perform. }
  destruct (lookup_lt_is_Some_2 (sockets w) c (Hlt c Hc)) as [ws Hws].
  exists ws. split; [exact Hws|].
  exact (Forall_lookup_1 _ _ _ _ Hurl Hws).
Qed.

End WithHost.

Lemma handle_refers_to_a_socket_witness :
  exists ws, sockets reconnecting_world !! 1 = Some ws
             /\ url ws = lit "wss://api.openai.com/v1/audio/realtime".
Proof.
  exact (handle_refers_to_a_socket (H := ascii_host) reconnecting_world 1
           ManagerClaims.reconnecting_world_reachable
           ltac:(vm_compute; reflexivity)).
Defined.

Lemma announced_heard w w' : heard w w' -> announced w -> announced w'.
Proof.
  intros [Ht [more He]] Ha. unfold announced. rewrite Ht, He.
  intros Hon. apply elem_of_app. left. now apply Ha.
Qed.

Lemma heard_emit e : keeps heard (emit e).
Proof. intros w. split; [reflexivity|]. now exists [e]. Qed.

Lemma heard_console_log line : keeps heard (console_log line).
Proof. intros w. split; [reflexivity|]. exists []. cbn. now rewrite app_nil_r. Qed.

#[local] Hint Resolve heard_emit heard_console_log : keeps.

Section WithHost.
Context `{Host}.

Lemma heard_on_message data : keeps heard (on_message data).
Proof.
  unfold on_message, handleOpenAIMessage, handleDeepSeekMessage. keeps_steps.
Qed.

Lemma announced_handler ev w : announced w -> announced (snd (handler ev w)).
Proof.
  intros Ha. destruct ev as [|e| |data]; cbn [handler].
  - rewrite on_open_cases.
    destruct (wsConnection (this w)) as [c|].
    + destruct (sockets w !! c) as [wc|]; [|exact Ha].
      destruct (ws_send_throws _); [exact Ha|].
      intros _. cbn. apply elem_of_app. right. left.
    + intros _. cbn. apply elem_of_app. right. left.
  - rewrite on_error_result. intros Hon. cbn in *.
    apply elem_of_app. left. now apply Ha.
  - rewrite on_close_result. intros Hon. discriminate Hon.
  - apply (announced_heard w); [apply heard_on_message|exact Ha].
Qed.

Lemma announced_run_listeners ls ev w :
  announced w -> announced (snd (run_listeners ls ev w)).
Proof.
  revert w. induction ls as [|l ls IH]; intros w Ha; [exact Ha|].
  cbn [run_listeners]. destruct (bool_decide _); [|now apply IH].
  unfold bind. pose proof (announced_handler ev w Ha) as Hh.
  destruct (handler ev w) as [[[]|e] w1]; [|exact Hh]. now apply IH.
Qed.

Lemma announced_perform a w : announced w -> announced (perform a w).
Proof.
  intros Ha. destruct a as [response| |now audioData| |h ev]; cbn [perform].
  - destruct (createTranscriptionSession_negotiated response w)
      as (_ & He & _ & Hi & _).
    unfold announced. now rewrite He, Hi.
  - rewrite connectToWebSocket_cases.
    destruct (negb _); [exact Ha|]. destruct (ws_rejects_url _); exact Ha.
  - rewrite sendAudioChunk_cases.
    destruct (wsConnection (this w)); [|exact Ha].
    destruct (negb _); [exact Ha|]. destruct (send_ok w); exact Ha.
  - rewrite close_cases.
    destruct (wsConnection (this w)); [|exact Ha]. intros Hon. discriminate Hon.
  - unfold deliver. eff. destruct (sockets w !! h) as [ws|]; [|exact Ha].
    now apply announced_run_listeners.
Qed.

(** X21.  In every world of a manager, [isActive] is true only if the
    manager has emitted [connected]: a listener never finds the manager
    active without having been told. *)
Theorem active_only_after_connected w :
  reachable w -> isActive w = true -> E_connected ∈ emitted w.
Proof.
  intros Hreach. unfold isActive. change (announced w).
  induction Hreach as [apiKey provider|w a _ IH _].
  - intros Hon. discriminate Hon.
  - now apply announced_perform.
Qed.

(** X22.  After [close], and after the close of any of its sockets, the
    manager drops audio: [sendAudioChunk] returns [false] and writes
    nothing, whatever socket the manager holds. *)
Theorem audio_is_dropped_after_close now audioData w :
  sendAudioChunk now audioData (snd (close w)) = (Normal false, snd (close w))
  /\ (forall h ws,
        reachable w -> sockets w !! h = Some ws ->
        sendAudioChunk now audioData (snd (deliver h Ev_close w))
        = (Normal false, snd (deliver h Ev_close w))).
Proof.
  split.
  - rewrite sendAudioChunk_cases, close_cases.
    destruct (wsConnection (this w)) as [c|] eqn:Hc; cbn [snd this wsConnection
      set_isConnected set_wsConnection]; [reflexivity|]. now rewrite Hc.
  - intros h ws Hreach Hws. rewrite sendAudioChunk_cases.
    rewrite (deliver_lifecycle w h ws Ev_close Hreach Hws) by discriminate.
    cbn [handler]. rewrite on_close_result.
    cbn [snd this isConnected set_this set_isConnected with_event wsConnection negb].
    destruct (wsConnection _); reflexivity.
Qed.

End WithHost.

Lemma active_only_after_connected_witness : E_connected ∈ emitted connected_world.
Proof.
  exact (active_only_after_connected (H := ascii_host) connected_world
           ManagerClaims.connected_world_reachable
           ltac:(vm_compute; reflexivity)).
Defined.

Lemma audio_is_dropped_after_close_witness :
  fst (sendAudioChunk (H := ascii_host) 0 [1; 2; 3]%Z
         (snd (deliver (H := ascii_host) 0 Ev_close connected_world)))
  = Normal false.
Proof.
  rewrite (proj2 (audio_is_dropped_after_close (H := ascii_host)
                    0 [1; 2; 3]%Z connected_world) 0
             (opened (JString (lit "tok123"))
                (fresh_socket (lit "wss://api.openai.com/v1/audio/realtime")))
             ManagerClaims.connected_world_reachable
             ltac:(vm_compute; reflexivity)).
  reflexivity.
Defined.

End ManagerMore.

(** ** QuestionClassifier: what a result tells *)

Module ClassifierMore.

Import Classifier ClassifierSpec ClassifierFacts.

(** Cases on a comparison of the outer [reduce], and on the last test. *)
Ltac by_ltb x :=
  match goal with
  | |- context [?a <? x] => destruct (Nat.ltb_spec a x); cbn [score type]
  end.

Ltac by_final :=
  match goal with
  | |- context [0 <? ?b] => destruct (Nat.ltb_spec 0 b)
  end.

Section WithHost.
Context `{Host}.

(** X23.  Whatever the text, no category has more phrases in it than the
    category [quickClassify] returns, and every category that comes
    before the result has strictly fewer; the result is [UNKNOWN] exactly
    when no phrase of any category occurs in the text. *)
Theorem quickClassify_result_is_best text :
  (forall c, hits text c <= hits text (quickClassify text))
  /\ (forall c, quickClassify text <> UNKNOWN ->
                rank c < rank (quickClassify text) ->
                hits text c < hits text (quickClassify text))
  /\ (quickClassify text = UNKNOWN <-> forall c, hits text c = 0).
Proof.
  rewrite quickClassify_unfold. pose proof (hits_UNKNOWN text) as Hu.
  cbv zeta; cbn [score type].
  by_ltb (hits text BEHAVIORAL); by_ltb (hits text SYSTEM_DESIGN);
    by_ltb (hits text OBJECT_ORIENTED_DESIGN); by_ltb (hits text CODING);
    by_final;
    (split; [|split; [|split]]);
    try (intros c; destruct c; cbn [rank]; intros; try congruence; lia);
    try discriminate;
    try (intros Hall;
         pose proof (Hall BEHAVIORAL); pose proof (Hall SYSTEM_DESIGN);
         pose proof (Hall OBJECT_ORIENTED_DESIGN); pose proof (Hall CODING);
         first [reflexivity | lia]);
    try (intros _ c; destruct c; lia).
Qed.

End WithHost.

End ClassifierMore.

(** ** The voice recognition slice *)

Module VoiceSliceFacts.

Import VoiceSlice.

(** The flag after a list of actions, from any state: it is set if an
    action started the recognition and none stopped it afterwards, or if
    it was set and no action stopped it. *)
Lemma isActive_after actions s :
  isActive (fold_left reducer actions s) = true <->
  (exists before later,
      actions = before ++ startVoiceRecognition :: later
      /\ stopVoiceRecognition ∉ later)
  \/ (isActive s = true /\ stopVoiceRecognition ∉ actions).
Proof.
  revert s. induction actions as [|a rest IH]; intros s; cbn [fold_left].
  - split.
    + intros Hs. right. split; [exact Hs|apply not_elem_of_nil].
    + intros [(before & later & Heq & _)|[Hs _]]; [|exact Hs].
      now destruct before.
  - rewrite IH. split.
    + intros [(before & later & -> & Hno)|[Hs Hno]].
      * left. exists (a :: before), later. now split.
      * destruct a; cbn in Hs;
          try (right; split; [exact Hs|];
               rewrite not_elem_of_cons; split; [discriminate|exact Hno]).
        -- left. exists [], rest. now split.
        -- discriminate Hs.
    + intros [(before & later & Heq & Hno)|[Hs Hno]].
      * destruct before as [|b before]; cbn in Heq.
        -- injection Heq as -> ->. right. split; [reflexivity|exact Hno].
        -- injection Heq as -> ->. left. now exists before, later.
      * apply not_elem_of_cons in Hno as [Hne Hno]. right.
        split; [|exact Hno]. destruct a; cbn; try exact Hs; try reflexivity.
        now destruct Hne.
Qed.

(** X24.  The store is active after the actions dispatched so far
    exactly when one of them started the recognition and none after it
    stopped it: no other action of the slice, and no action of another
    slice, touches the flag. *)
Theorem store_is_active_after_last_start actions :
  isActive (dispatched actions) = true <->
  exists before later,
    actions = before ++ startVoiceRecognition :: later
    /\ stopVoiceRecognition ∉ later.
Proof.
  unfold dispatched. rewrite isActive_after. split.
  - intros [Hsplit|[Hs _]]; [exact Hsplit|discriminate Hs].
  - intros Hsplit. now left.
Qed.

(** X25.  A reset clears the transcript and the question type and leaves
    the two flags as they are: it does not stop the recognition.  A stop
    and a reset, in either order, bring every state to the initial
    state. *)
Theorem reset_and_stop state :
  isActive (reducer state resetVoiceRecognition) = isActive state
  /\ isSpeaking (reducer state resetVoiceRecognition) = isSpeaking state
  /\ reducer (reducer state stopVoiceRecognition) resetVoiceRecognition
     = initialState
  /\ reducer (reducer state resetVoiceRecognition) stopVoiceRecognition
     = initialState.
Proof. repeat split. Qed.

End VoiceSliceFacts.

(** ** SpeechRecognitionService *)

Module SpeechFacts.

Import Speech SpeechSpec.

(** Unfolds the plumbing of the monad and the setters. *)
Ltac run_speech :=
  cbv beta iota zeta delta
    [setup start stop report handle when_given recognition_start
     recognition_stop bind ret get modify throw try_catch
     console_error call set_recognition set_options set_isListening
     set_isSpeaking];
  cbn [recognition isListening isSpeaking options console calls fst snd negb].

Lemma flag_or_true_true f : flag_or_true f = true.
Proof. destruct f as [| |[]]; reflexivity. Qed.

Lemma lang_or_default_nonempty f : lang_or_default f <> [].
Proof. destruct f as [| |[|c l]]; discriminate. Qed.

(** X26.  After [setup], whatever the options say, the recognition
    object is continuous and reports interim results: [continuous:
    false] and [interimResults: false] have no effect.  Its language is
    never empty, the handlers are installed, the options are those given
    over those the service had, and the service listens or not as
    before. *)
Theorem setup_forces_the_flags opts s r :
  recognition s = Some r ->
  fst (setup opts s) = Normal tt
  /\ options (snd (setup opts s)) = spread_options (options s) opts
  /\ isListening (snd (setup opts s)) = isListening s
  /\ exists r',
       recognition (snd (setup opts s)) = Some r'
       /\ r_continuous r' = true
       /\ r_interimResults r' = true
       /\ r_lang r' = lang_or_default (lang (spread_options (options s) opts))
       /\ r_lang r' <> []
       /\ handlers_installed r' = true.
Proof.
  intros Hr. run_speech. rewrite Hr. run_speech.
  repeat split. eexists. split; [reflexivity|].
  cbn [r_continuous r_interimResults r_lang handlers_installed].
  rewrite !flag_or_true_true. repeat split. apply lang_or_default_nonempty.
Qed.

Lemma setup_forces_the_flags_witness :
  exists r', recognition one_shot_service = Some r'
             /\ r_continuous r' = true /\ r_interimResults r' = true
             /\ r_lang r' = lit "fr-FR".
Proof.
  destruct (setup_forces_the_flags one_shot_options (new_service true)
              new_recognition eq_refl)
    as (_ & _ & _ & r' & Hr & Hc & Hi & Hl & _).
  exists r'. repeat split; assumption.
Defined.

(** X27.  In a browser without the API the service is inert: [setup] and
    [start] only log that recognition is not supported, [stop] and the
    events do nothing, nothing throws, and [isSupported] is false. *)
Theorem unsupported_service_is_inert s :
  recognition s = None ->
  isSupported s = false
  /\ (forall opts, setup opts s
        = (Normal tt, logged "Speech recognition is not supported in this browser" s))
  /\ (forall throws, start throws s
        = (Normal tt, logged "Speech recognition is not supported in this browser" s))
  /\ (forall throws, stop throws s = (Normal tt, s))
  /\ (forall ev, report ev s = (Normal tt, s)).
Proof.
  destruct s as [r listening speaking opts con cs]. cbn [recognition].
  intros ->. unfold isSupported, logged. run_speech. repeat split.
Qed.

Lemma unsupported_service_is_inert_witness :
  isSupported (new_service false) = false
  /\ stop false (new_service false) = (Normal tt, new_service false).
Proof.
  destruct (unsupported_service_is_inert (new_service false) eq_refl)
    as (Hsup & _ & _ & Hstop & _).
  split; [exact Hsup|apply Hstop].
Defined.

(** X28.  [start] and [stop] never throw, even when the recognition
    object does, and neither changes [isListening]: only the events of
    the recognition object do.  [start] on a supported service that
    listens and [stop] on a service that does not are no-ops.  So until
    the start event arrives, a second [start] reaches the recognition
    object again. *)
Theorem start_and_stop_are_guarded throws s :
  (fst (start throws s) = Normal tt
   /\ isListening (snd (start throws s)) = isListening s
   /\ (isSupported s = true -> isListening s = true ->
       start throws s = (Normal tt, s)))
  /\ (fst (stop throws s) = Normal tt
      /\ isListening (snd (stop throws s)) = isListening s
      /\ (isListening s = false -> stop throws s = (Normal tt, s)))
  /\ (forall r,
        recognition s = Some r -> isListening s = false ->
        start_calls <$> recognition (snd (start false (snd (start false s))))
        = Some (S (S (start_calls r)))).
Proof.
  unfold isSupported.
  destruct s as [[r|] listening speaking opts con cs]; run_speech;
    destruct listening, throws; run_speech;
    repeat split; intros; try discriminate; try reflexivity;
    match goal with Hr : Some _ = Some _ |- _ => injection Hr as <- end;
    reflexivity.
Qed.

Lemma start_and_stop_are_guarded_witness :
  start_calls <$> recognition (snd (start false (snd (start false one_shot_service))))
  = Some 2.
Proof.
  apply (proj2 (proj2 (start_and_stop_are_guarded false one_shot_service))
           {| r_continuous := true; r_interimResults := true;
              r_lang := lit "fr-FR"; handlers_installed := true;
              start_calls := 0; stop_calls := 0 |}
           eq_refl eq_refl).
Defined.

(** X29.  With the handlers installed and a result callback given, a
    result event calls the callback once, with the transcript of the
    first alternative of the last result and whether that result is
    final; an event without results makes the handler throw a TypeError
    and calls nothing.  After a start event the service listens, and
    [start] no longer reaches the recognition object. *)
Theorem result_event_reports_the_last_result s r f :
  recognition s = Some r ->
  handlers_installed r = true ->
  onResult (options s) = given f ->
  (forall earlier result first others,
     alternatives result = first :: others ->
     report (Rec_result (earlier ++ [result])) s
     = (Normal tt,
        having_called (called_onResult f (alt_transcript first) (isFinal result)) s))
  /\ report (Rec_result []) s = (Throw "TypeError", s)
  /\ (forall throws,
        isListening (snd (report Rec_start s)) = true
        /\ recognition (snd (start throws (snd (report Rec_start s))))
           = Some r).
Proof.
  destruct s as [r0 listening speaking opts con cs].
  cbn [recognition options]. intros -> Hh Hf. split; [|split].
  - intros earlier result first others Halt. unfold having_called.
    run_speech. rewrite Hh. run_speech. rewrite Hf, last_snoc, Halt.
    reflexivity.
  - run_speech. rewrite Hh. run_speech. rewrite Hf. reflexivity.
  - intros throws. run_speech. rewrite Hh. run_speech.
    destruct (onStart opts); run_speech; split; reflexivity.
Qed.

Lemma result_event_reports_the_last_result_witness :
  report (Rec_result
     ([ {| alternatives := [ {| alt_transcript := lit "what is";
                                confidence := 0.5 |} ];
           isFinal := false |} ] ++
      [ {| alternatives := [ {| alt_transcript := lit "what is a hash table";
                                confidence := 0.75 |} ];
           isFinal := true |} ])) one_shot_service
  = (Normal tt,
     having_called (called_onResult 1 (lit "what is a hash table") true)
       one_shot_service).
Proof.
  apply (proj1 (result_event_reports_the_last_result one_shot_service
                  {| r_continuous := true; r_interimResults := true;
                     r_lang := lit "fr-FR"; handlers_installed := true;
                     start_calls := 0; stop_calls := 0 |} 1
                  eq_refl eq_refl eq_refl)
           [ {| alternatives := [ {| alt_transcript := lit "what is";
                                     confidence := 0.5 |} ];
                isFinal := false |} ]
           {| alternatives := [ {| alt_transcript := lit "what is a hash table";
                                   confidence := 0.75 |} ];
              isFinal := true |}
           {| alt_transcript := lit "what is a hash table"; confidence := 0.75 |}
           [] eq_refl).
Defined.

End SpeechFacts.
